(** * Bachelor Bingo multiplayer server: a shallow embedding of [server.js]

    The development follows the source file section by section: the phrase
    pool and the helper functions (room codes, card generation, win check,
    room cleanup timers, player construction), then the socket event
    handlers as one transition function on an explicit server state. It
    follows the later of the two versions of the server, the one with the
    room cleanup timers.

    Conventions.
    - JavaScript strings are modelled as [string] (ASCII).
    - A [markedSquares] array is a JavaScript array of booleans that may
      contain holes (it is written at a client-supplied index); it is a
      [list (option bool)] where [None] is a hole, together with the table
      of non-index properties a write with a negative or huge integer
      creates.
    - [Math.random] is an oracle: the values it returns during a handler
      are part of the handler's input.
    - [setTimeout]/[clearTimeout] are modelled by the table of armed
      timers, a handle counter and a logical clock in milliseconds. *)

From Stdlib Require Import ZArith Lia Permutation Ascii.
From stdpp Require Import gmap strings list.

Local Open Scope string_scope.
Local Open Scope list_scope.
Local Open Scope Z_scope.
Local Open Scope nat_scope.

(** ** JavaScript arrays of booleans *)

Module Js.

(** An array: its indexed slots (a hole is [None]) and its other
    integer-named properties. *)
Record array := Array {
  elems : list (option bool);
  props : gmap Z bool
}.

(** [new Array(n).fill(b)] *)
Definition filled (n : nat) (b : bool) : array :=
  Array (replicate n (Some b)) ∅.

(** An integer names an array slot iff it lies in [0, 2^32 - 2]. *)
Definition is_index (i : Z) : bool :=
  ((0 <=? i) && (i <? 4294967295))%Z.

(** [a[i]]; [None] is [undefined]. *)
Definition get (a : array) (i : Z) : option bool :=
  if is_index i then mjoin (elems a !! Z.to_nat i) else props a !! i.

(** Writing a slot: in range it replaces, past the end it extends the
    array, leaving holes in between. *)
Definition set_slot (l : list (option bool)) (k : nat) (v : bool)
  : list (option bool) :=
  if decide (k < length l) then <[k := Some v]> l
  else l ++ replicate (k - length l) None ++ [Some v].

(** [a[i] = v] *)
Definition set (a : array) (i : Z) (v : bool) : array :=
  if is_index i then Array (set_slot (elems a) (Z.to_nat i) v) (props a)
  else Array (elems a) (<[i := v]> (props a)).

(** [a.length] *)
Definition length (a : array) : nat := List.length (elems a).

(** Truthiness of a value read from the array, and [!v]. *)
Definition truthy (v : option bool) : bool :=
  match v with Some b => b | None => false end.

Definition not (v : option bool) : bool := negb (truthy v).

(** [a.every(m => m)]: holes are skipped. *)
Definition every (a : array) : bool :=
  forallb (fun x => match x with Some b => b | None => true end) (elems a).

(** [a.filter(m => m).length]: holes are skipped. *)
Definition count (a : array) : nat :=
  List.length (List.filter truthy (elems a)).

(** The array holding exactly the booleans of [v]. *)
Definition of_bools (v : list bool) : array := Array (Some <$> v) ∅.

End Js.

(** ** DATA STORAGE *)

Definition ROOM_TIMEOUT : Z := 30 * 60 * 1000.

Definition CLICHES : list string := [
  "Here for the right reasons";
  "Can I steal you?";
  "Most dramatic season";
  "Journey";
  "Process";
  "Helicopter date";
  "Hot tub scene";
  "Someone cries";
  "Champagne toast";
  "Rose ceremony drama";
  "Awkward silence";
  "Group date drama";
  "I'm falling for you";
  "Fantasy suite card";
  "Hometown visit";
  "Meeting the parents";
  "Interrupted conversation";
  "Close-up of a rose";
  "Dramatic music swell";
  "Sunset walk on beach";
  "Will you accept this rose?";
  "Final rose tonight";
  "Connection";
  "Vulnerable moment";
  "Open up emotionally";
  "Trust the process";
  "Love triangle";
  "Cocktail party drama";
  "Tears during ITM";
  "Not here to make friends";
  "Leap of faith";
  "Take a chance on love";
  "Follow my heart";
  "Wife material";
  "Meet my family"
].

Inductive GameMode := regular | blackout.

Record Player := mkPlayer {
  id : string;
  username : string;
  isHost : bool;
  bingoCard : list string;
  markedSquares : Js.array
}.

Record Room := mkRoom {
  code : string;
  host : string;
  players : list Player;
  gameStarted : bool;
  gameMode : GameMode
}.

(** ** HELPER FUNCTIONS *)

(** *** Card generation *)

(** [card.splice(at, 0, x)] *)
Definition splice_in {A} (at_ : nat) (x : A) (l : list A) : list A :=
  take at_ l ++ x :: drop at_ l.

(** [generateBingoCard]; [shuffled] is the outcome of sorting a copy of the
    pool with the random comparator. *)
Definition generateBingoCard (shuffled : list string) : list string :=
  let card := take 24 shuffled in
  splice_in 12 "FREE SPACE" card.

(** *** Win check *)

Definition size : nat := 5.

Definition all_truthy (l : list (option bool)) : bool := forallb Js.truthy l.

Definition row_of (markedSquares : Js.array) (i : nat) : list (option bool) :=
  (fun j => Js.get markedSquares (Z.of_nat (i * size + j))) <$> seq 0 size.

Definition col_of (markedSquares : Js.array) (i : nat) : list (option bool) :=
  (fun j => Js.get markedSquares (Z.of_nat (i + j * size))) <$> seq 0 size.

Definition checkWin (markedSquares : Js.array) : bool :=
  if existsb (fun i => all_truthy (row_of markedSquares i)) (seq 0 size)
  then true
  else if existsb (fun i => all_truthy (col_of markedSquares i)) (seq 0 size)
  then true
  else
    let diag1 := (fun k => Js.get markedSquares k) <$> [0; 6; 12; 18; 24]%Z in
    let diag2 := (fun k => Js.get markedSquares k) <$> [4; 8; 12; 16; 20]%Z in
    all_truthy diag1 || all_truthy diag2.

(** The win test of the [mark-square] handler. *)
Definition hasWon (mode : GameMode) (markedSquares : Js.array) : bool :=
  match mode with
  | blackout => Js.every markedSquares
  | regular => checkWin markedSquares
  end.

(** *** Players *)

Definition createPlayer (socketId username : string) (isHost : bool) : Player :=
  mkPlayer socketId username isHost []
           (Js.set (Js.filled 25 false) 12 true).

(** ** The room registry: a JavaScript [Map] with string keys

    Entries are kept in insertion order, the order [forEach] visits them. *)

Module JsMap.

Fixpoint get {V} (m : list (string * V)) (k : string) : option V :=
  match m with
  | [] => None
  | (k', v) :: m' => if decide (k' = k) then Some v else get m' k
  end.

Definition has {V} (m : list (string * V)) (k : string) : bool :=
  match get m k with Some _ => true | None => false end.

(** [m.set(k, v)]: an existing key keeps its position. The same function
    models the in-place mutation of the object stored under [k]. *)
Fixpoint set {V} (m : list (string * V)) (k : string) (v : V)
  : list (string * V) :=
  match m with
  | [] => [(k, v)]
  | (k', v') :: m' =>
      if decide (k' = k) then (k, v) :: m' else (k', v') :: set m' k v
  end.

(** [m.delete(k)]. The keys of a [Map] are distinct, and [set] keeps them
    so; [delete] drops every entry under [k]. *)
Fixpoint delete {V} (m : list (string * V)) (k : string)
  : list (string * V) :=
  match m with
  | [] => []
  | (k', v') :: m' =>
      if decide (k' = k) then delete m' k else (k', v') :: delete m' k
  end.

End JsMap.

(** ** Server state *)

(** The timer facility: [roomTimers], the timers armed in the event loop
    (handle to the room code its callback closes over and the time it is
    due), the next fresh handle and the current time. *)
Record Timers := mkTimers {
  roomTimers : gmap string nat;
  timeouts : gmap nat (string * Z);
  nextHandle : nat;
  clock : Z
}.

Record State := mkState {
  rooms : list (string * Room);
  timers : Timers
}.

Definition initial : State := mkState [] (mkTimers ∅ ∅ 0 0).

(** [clearTimeout(h)] *)
Definition clearTimeout (h : nat) (t : Timers) : Timers :=
  mkTimers (roomTimers t) (delete h (timeouts t)) (nextHandle t) (clock t).

(** [setTimeout(callback for roomCode, delay)] returns the new handle. *)
Definition setTimeout (roomCode : string) (delay : Z) (t : Timers)
  : nat * Timers :=
  let h := nextHandle t in
  (h, mkTimers (roomTimers t)
               (<[h := (roomCode, (clock t + delay)%Z)]> (timeouts t))
               (S h) (clock t)).

Definition scheduleRoomCleanup (roomCode : string) (t : Timers) : Timers :=
  let t1 := match roomTimers t !! roomCode with
            | Some h => clearTimeout h t
            | None => t
            end in
  let '(timer, t2) := setTimeout roomCode ROOM_TIMEOUT t1 in
  mkTimers (<[roomCode := timer]> (roomTimers t2))
           (timeouts t2) (nextHandle t2) (clock t2).

Definition cancelRoomCleanup (roomCode : string) (t : Timers) : Timers :=
  match roomTimers t !! roomCode with
  | Some h =>
      let t1 := clearTimeout h t in
      mkTimers (delete roomCode (roomTimers t1))
               (timeouts t1) (nextHandle t1) (clock t1)
  | None => t
  end.

(** The callback armed by [scheduleRoomCleanup]. *)
Definition cleanupCallback (roomCode : string) (s : State) : State :=
  match JsMap.get (rooms s) roomCode with
  | Some room =>
      match players room with
      | [] =>
          let t := timers s in
          mkState (JsMap.delete (rooms s) roomCode)
                  (mkTimers (delete roomCode (roomTimers t))
                            (timeouts t) (nextHandle t) (clock t))
      | _ :: _ => s
      end
  | None => s
  end.

(** *** Room codes *)

Definition chars : string := "ABCDEFGHIJKLMNOPQRSTUVWXYZ".

(** [chars.charAt(k)]: the empty string when [k] is out of range. *)
Definition charAt (s : string) (k : nat) : string :=
  match String.get k s with
  | Some c => String c EmptyString
  | None => EmptyString
  end.

(** [generateRoomCode]; [random] lists the successive values of
    [Math.floor(Math.random() * chars.length)]. The result is [None] when
    every attempt the supplied values allow collides with a live code. *)
Fixpoint generateRoomCode (rooms : list (string * Room)) (random : list nat)
  : option string :=
  match random with
  | a :: b :: c :: d :: rest =>
      let code := charAt chars a +:+ charAt chars b
                  +:+ charAt chars c +:+ charAt chars d in
      if JsMap.has rooms code then generateRoomCode rooms rest else Some code
  | _ => None
  end.

(** [s.toUpperCase()] on ASCII strings. JavaScript upper-cases by the
    Unicode tables; this definition follows it on strings of ASCII
    characters and not on others. *)
Definition upper_ascii (c : ascii) : ascii :=
  let n := nat_of_ascii c in
  if (97 <=? n) && (n <=? 122) then ascii_of_nat (n - 32) else c.

Fixpoint toUpperCase (s : string) : string :=
  match s with
  | EmptyString => EmptyString
  | String c s' => String (upper_ascii c) (toUpperCase s')
  end.

(** ** SOCKET.IO EVENT HANDLERS *)

(** What a handler emits, and to whom. *)
Inductive Target :=
| ToSocket (socketId : string)
| ToRoom (roomCode : string)
| ToRoomExcept (roomCode socketId : string).

Record PublicPlayer := mkPublic {
  pub_id : string;
  pub_username : string;
  pub_isHost : bool
}.

Inductive Payload :=
| RoomCreated (roomCode : string) (players : list Player)
| RoomJoined (roomCode : string) (players : list Player)
| PlayerJoined (player : Player) (players : list Player)
| GameStarted (bingoCard : list string) (players : list PublicPlayer)
| SquareMarked (playerId username : string) (index : Z) (marked : bool)
| PlayerWon (playerId username : string) (gameMode : GameMode)
            (markedCount : nat)
| NewRoundStarted (bingoCard : list string) (gameMode : GameMode)
| BlackoutModeStarted (gameMode : GameMode)
| GameFinished (playerId username : string) (markedCount : nat)
| NewHost (players : list Player)
| PlayerLeft (players : list Player)
| Error (message : string).

Definition Emission : Type := Target * Payload.

(** The events a client sends; the random values a handler consumes come
    with the event. The [index] of [mark-square] is an integer; a payload
    that is not an integer is outside the model. *)
Inductive ClientEvent :=
| CreateRoom (username : string) (random : list nat)
| JoinRoom (roomCode username : string)
| StartGame (roomCode : string) (shuffle : nat -> list string)
| MarkSquare (roomCode : string) (index : Z)
| NewRound (roomCode : string) (shuffle : nat -> list string)
| ContinueToBlackout (roomCode : string)
| FinishGame (roomCode : string)
| Disconnect.

(** Field updates of the mutable objects. *)
Definition set_players (ps : list Player) (r : Room) : Room :=
  mkRoom (code r) (host r) ps (gameStarted r) (gameMode r).
Definition set_host (h : string) (r : Room) : Room :=
  mkRoom (code r) h (players r) (gameStarted r) (gameMode r).
Definition set_gameStarted (b : bool) (r : Room) : Room :=
  mkRoom (code r) (host r) (players r) b (gameMode r).
Definition set_gameMode (m : GameMode) (r : Room) : Room :=
  mkRoom (code r) (host r) (players r) (gameStarted r) m.
Definition set_isHost (b : bool) (p : Player) : Player :=
  mkPlayer (id p) (username p) b (bingoCard p) (markedSquares p).
Definition set_bingoCard (c : list string) (p : Player) : Player :=
  mkPlayer (id p) (username p) (isHost p) c (markedSquares p).
Definition set_markedSquares (a : Js.array) (p : Player) : Player :=
  mkPlayer (id p) (username p) (isHost p) (bingoCard p) a.

Definition public (p : Player) : PublicPlayer :=
  mkPublic (id p) (username p) (isHost p).

Definition on_create_room (socketId username : string) (random : list nat)
    (s : State) : option (State * list Emission) :=
  match generateRoomCode (rooms s) random with
  | None => None
  | Some roomCode =>
      let player := createPlayer socketId username true in
      let room := mkRoom roomCode socketId [player] false regular in
      Some (mkState (JsMap.set (rooms s) roomCode room) (timers s),
            [(ToSocket socketId, RoomCreated roomCode (players room))])
  end.

Definition on_join_room (socketId roomCode0 username : string) (s : State)
  : State * list Emission :=
  let roomCode := toUpperCase roomCode0 in
  match JsMap.get (rooms s) roomCode with
  | None => (s, [(ToSocket socketId, Error "Room not found")])
  | Some room =>
      let t := cancelRoomCleanup roomCode (timers s) in
      if gameStarted room then
        (mkState (rooms s) t,
         [(ToSocket socketId, Error "Game already in progress")])
      else
        let player := createPlayer socketId username false in
        let room' := set_players (players room ++ [player]) room in
        (mkState (JsMap.set (rooms s) roomCode room') t,
         [(ToSocket socketId, RoomJoined roomCode (players room'));
          (ToRoomExcept roomCode socketId,
           PlayerJoined player (players room'))])
  end.

Definition on_start_game (socketId roomCode : string)
    (shuffle : nat -> list string) (s : State) : State * list Emission :=
  match JsMap.get (rooms s) roomCode with
  | None => (s, [(ToSocket socketId, Error "Room not found")])
  | Some room =>
      if decide (host room ≠ socketId) then
        (s, [(ToSocket socketId, Error "Only host can start the game")])
      else
        let ps := imap (fun k p =>
                          set_bingoCard (generateBingoCard (shuffle k)) p)
                       (players room) in
        let room' := set_gameStarted true (set_players ps room) in
        (mkState (JsMap.set (rooms s) roomCode room') (timers s),
         (fun p => (ToSocket (id p),
                    GameStarted (bingoCard p) (public <$> ps))) <$> ps)
  end.

Definition on_mark_square (socketId roomCode : string) (index : Z)
    (s : State) : State * list Emission :=
  match JsMap.get (rooms s) roomCode with
  | None => (s, [(ToSocket socketId, Error "Room not found")])
  | Some room =>
      match list_find (fun p => id p = socketId) (players room) with
      | None => (s, [(ToSocket socketId, Error "Player not in room")])
      | Some (k, player) =>
          let marks := markedSquares player in
          let marks' := Js.set marks index (Js.not (Js.get marks index)) in
          let player' := set_markedSquares marks' player in
          let room' := set_players (<[k := player']> (players room)) room in
          let marked := Js.get marks' index in
          (mkState (JsMap.set (rooms s) roomCode room') (timers s),
           (ToRoom roomCode,
            SquareMarked socketId (username player') index
                         (Js.truthy marked))
           :: (if hasWon (gameMode room') marks'
               then [(ToRoom roomCode,
                      PlayerWon socketId (username player')
                                (gameMode room') (Js.count marks'))]
               else []))
      end
  end.

Definition on_new_round (socketId roomCode : string)
    (shuffle : nat -> list string) (s : State) : State * list Emission :=
  match JsMap.get (rooms s) roomCode with
  | None => (s, [(ToSocket socketId, Error "Room not found")])
  | Some room =>
      if decide (host room ≠ socketId) then
        (s, [(ToSocket socketId, Error "Only host can start new round")])
      else
        let ps := imap (fun k p =>
                          set_markedSquares
                            (Js.set (Js.filled 25 false) 12 true)
                            (set_bingoCard (generateBingoCard (shuffle k)) p))
                       (players room) in
        let room' := set_gameMode regular (set_players ps room) in
        (mkState (JsMap.set (rooms s) roomCode room') (timers s),
         (fun p => (ToSocket (id p),
                    NewRoundStarted (bingoCard p) regular)) <$> ps)
  end.

Definition on_continue_to_blackout (socketId roomCode : string) (s : State)
  : State * list Emission :=
  match JsMap.get (rooms s) roomCode with
  | None => (s, [(ToSocket socketId, Error "Room not found")])
  | Some room =>
      if decide (host room ≠ socketId) then
        (s, [(ToSocket socketId, Error "Only host can continue to blackout")])
      else
        let room' := set_gameMode blackout room in
        (mkState (JsMap.set (rooms s) roomCode room') (timers s),
         [(ToRoom roomCode, BlackoutModeStarted blackout)])
  end.

(** The scan of [finish-game] for the player with most marked squares. *)
Definition scan_winner (first : Player) (ps : list Player) : Player * nat :=
  fold_left
    (fun '(winner, maxMarked) player =>
       let markedCount := Js.count (markedSquares player) in
       if maxMarked <? markedCount then (player, markedCount)
       else (winner, maxMarked))
    ps (first, Js.count (markedSquares first)).

(** [finish-game]; reading [markedSquares] of [players[0]] throws when the
    room has no player, which is the [None] result. *)
Definition on_finish_game (socketId roomCode : string) (s : State)
  : option (State * list Emission) :=
  match JsMap.get (rooms s) roomCode with
  | None => Some (s, [(ToSocket socketId, Error "Room not found")])
  | Some room =>
      if decide (host room ≠ socketId) then
        Some (s, [(ToSocket socketId, Error "Only host can finish game")])
      else
        match players room with
        | [] => None
        | first :: _ =>
            let '(winner, maxMarked) := scan_winner first (players room) in
            Some (s, [(ToRoom roomCode,
                       GameFinished (id winner) (username winner) maxMarked)])
        end
  end.

(** The body of the [rooms.forEach] callback of [disconnect]. *)
Definition disconnect_room (socketId roomCode : string) (room : Room)
    (t : Timers) : Room * Timers * list Emission :=
  match list_find (fun p => id p = socketId) (players room) with
  | None => (room, t, [])
  | Some (playerIndex, player) =>
      match delete playerIndex (players room) with
      | [] => (set_players [] room, scheduleRoomCleanup roomCode t, [])
      | p0 :: rest =>
          let t' := cancelRoomCleanup roomCode t in
          if isHost player then
            let ps := set_isHost true p0 :: rest in
            (set_host (id p0) (set_players ps room), t',
             [(ToRoom roomCode, NewHost ps)])
          else
            (set_players (p0 :: rest) room, t',
             [(ToRoom roomCode, PlayerLeft (p0 :: rest))])
      end
  end.

Fixpoint disconnect_each (socketId : string) (entries : list (string * Room))
    (t : Timers) : list (string * Room) * Timers * list Emission :=
  match entries with
  | [] => ([], t, [])
  | (roomCode, room) :: entries' =>
      let '(room', t1, out1) := disconnect_room socketId roomCode room t in
      let '(rest, t2, out2) := disconnect_each socketId entries' t1 in
      ((roomCode, room') :: rest, t2, out1 ++ out2)
  end.

Definition on_disconnect (socketId : string) (s : State)
  : State * list Emission :=
  let '(rooms', t, out) := disconnect_each socketId (rooms s) (timers s) in
  (mkState rooms' t, out).

Definition handle (socketId : string) (e : ClientEvent) (s : State)
  : option (State * list Emission) :=
  match e with
  | CreateRoom username random => on_create_room socketId username random s
  | JoinRoom roomCode username =>
      Some (on_join_room socketId roomCode username s)
  | StartGame roomCode shuffle =>
      Some (on_start_game socketId roomCode shuffle s)
  | MarkSquare roomCode index =>
      Some (on_mark_square socketId roomCode index s)
  | NewRound roomCode shuffle =>
      Some (on_new_round socketId roomCode shuffle s)
  | ContinueToBlackout roomCode =>
      Some (on_continue_to_blackout socketId roomCode s)
  | FinishGame roomCode => on_finish_game socketId roomCode s
  | Disconnect => Some (on_disconnect socketId s)
  end.

(** ** The event loop

    One turn of the loop runs a socket handler, runs the callback of an
    armed timer that is due, or lets time pass. [None]: the turn cannot
    happen in this state, or its handler does not return. *)
Inductive Input :=
| FromSocket (socketId : string) (e : ClientEvent)
| TimerFires (h : nat)
| TimePasses (dt : Z).

Definition advance (dt : Z) (t : Timers) : Timers :=
  mkTimers (roomTimers t) (timeouts t) (nextHandle t) (clock t + dt)%Z.

Definition step (s : State) (i : Input) : option (State * list Emission) :=
  match i with
  | FromSocket socketId e => handle socketId e s
  | TimerFires h =>
      match timeouts (timers s) !! h with
      | Some (roomCode, due) =>
          if decide (due ≤ clock (timers s))%Z then
            Some (cleanupCallback roomCode
                    (mkState (rooms s) (clearTimeout h (timers s))), [])
          else None
      | None => None
      end
  | TimePasses dt =>
      if decide (0 ≤ dt)%Z then
        Some (mkState (rooms s) (advance dt (timers s)), [])
      else None
  end.

(** Running a sequence of turns, collecting the emissions of each. *)
Fixpoint run (s : State) (inputs : list Input)
  : option (State * list (list Emission)) :=
  match inputs with
  | [] => Some (s, [])
  | i :: inputs' =>
      match step s i with
      | None => None
      | Some (s1, out) =>
          match run s1 inputs' with
          | None => None
          | Some (s2, outs) => Some (s2, out :: outs)
          end
      end
  end.

Definition reachable (s : State) : Prop :=
  ∃ inputs outs, run initial inputs = Some (s, outs).

(** ** Specification-side notions *)

(** The lines of the 5x5 board under row-major flattening, as the
    specification lists them. *)
Definition spec_rows : list (list nat) :=
  (fun r => (fun c => 5 * r + c) <$> seq 0 5) <$> seq 0 5.

Definition spec_columns : list (list nat) :=
  (fun c => (fun r => 5 * r + c) <$> seq 0 5) <$> seq 0 5.

Definition spec_diagonals : list (list nat) :=
  [[0; 6; 12; 18; 24]; [4; 8; 12; 16; 20]].

Definition spec_lines : list (list nat) :=
  spec_rows ++ spec_columns ++ spec_diagonals.

(** Every cell of [line] is marked in the boolean vector [v]. *)
Definition line_marked (v : list bool) (line : list nat) : bool :=
  forallb (fun k => default false (v !! k)) line.

(** The [player-won] emissions among those of one turn. *)
Definition is_player_won (e : Emission) : bool :=
  match e.2 with PlayerWon _ _ _ _ => true | _ => false end.

Definition wins (out : list Emission) : list Emission :=
  List.filter is_player_won out.

(** What [mark-square] does to the marks of the requester. *)
Definition toggled (marks : Js.array) (index : Z) : Js.array :=
  Js.set marks index (Js.not (Js.get marks index)).

(** The [player-won] emissions a player causes by marking [idxs] in turn,
    starting from [marks]. *)
Fixpoint win_trace (roomCode socketId name : string) (mode : GameMode)
    (marks : Js.array) (idxs : list Z) : list (list Emission) :=
  match idxs with
  | [] => []
  | i :: idxs' =>
      let marks' := toggled marks i in
      (if hasWon mode marks'
       then [(ToRoom roomCode,
              PlayerWon socketId name mode (Js.count marks'))]
       else [])
      :: win_trace roomCode socketId name mode marks' idxs'
  end.

Definition marked_count (p : Player) : nat := Js.count (markedSquares p).

(** Every player of the room has a marks array of length 25. *)
Definition room_marks_25 (room : Room) : Prop :=
  Forall (fun p => Js.length (markedSquares p) = 25) (players room).

Definition marks_25 (s : State) : Prop :=
  Forall (fun e => room_marks_25 e.2) (rooms s).

(** The index of a [mark-square] does not name an array slot past the 25
    cells of the board. *)
Definition index_in_bounds (i : Input) : Prop :=
  match i with
  | FromSocket _ (MarkSquare _ index) =>
      Js.is_index index = true → (index < 25)%Z
  | _ => True
  end.

(** Scenarios. *)

(** A creates a room (the random values spell ABCD) and marks cell 25. *)
Definition out_of_range_mark : list Input :=
  [FromSocket "A" (CreateRoom "ann" [0; 1; 2; 3]);
   FromSocket "A" (MarkSquare "ABCD" 25)].

(** A creates a room, starts the game and leaves: the room is empty, the
    game is started and the cleanup timer is armed. *)
Definition abandoned_started_game : list Input :=
  [FromSocket "A" (CreateRoom "ann" [0; 1; 2; 3]);
   FromSocket "A" (StartGame "ABCD" (fun _ => CLICHES));
   FromSocket "A" Disconnect].

(** A creates a room and leaves; B joins the empty room before the
    cleanup timer is due. *)
Definition revived_room : list Input :=
  [FromSocket "A" (CreateRoom "ann" [0; 1; 2; 3]);
   FromSocket "A" Disconnect;
   FromSocket "B" (JoinRoom "ABCD" "bob")].

(** Invariants of the timer facility: the handles in [roomTimers] were
    handed out earlier, every armed timer is the one registered for its
    room code, and no handle is registered for two codes. *)
Record timers_inv (t : Timers) : Prop := {
  handles_fresh :
    ∀ c h, roomTimers t !! c = Some h → h < nextHandle t;
  armed_registered :
    ∀ h c due, timeouts t !! h = Some (c, due) → roomTimers t !! c = Some h;
  handles_distinct :
    ∀ c1 c2 h,
      roomTimers t !! c1 = Some h → roomTimers t !! c2 = Some h → c1 = c2
}.

Definition state_inv (s : State) : Prop :=
  NoDup (rooms s).*1 ∧ timers_inv (timers s).

(** The room code is in the registry. *)
Definition live (c : string) (s : State) : Prop :=
  is_Some (JsMap.get (rooms s) c).

(** No armed timer would clean up the room [c]. *)
Definition no_cleanup_pending (c : string) (t : Timers) : Prop :=
  ∀ h due, timeouts t !! h ≠ Some (c, due).

Definition is_disconnect (i : Input) : Prop :=
  match i with FromSocket _ Disconnect => True | _ => False end.

(** While the room [c] waits for a cleanup that is due at [D] or later. *)
Definition awaiting_cleanup (c : string) (D : Z) (s : State) : Prop :=
  live c s ∧
  (∀ h due, timeouts (timers s) !! h = Some (c, due) → (D ≤ due)%Z) ∧
  (D ≤ clock (timers s) + ROOM_TIMEOUT)%Z.




(** A second definition of the count of true marks, from the words of the
    specification: the number of positions of the marks vector whose entry
    is true. *)
Definition true_entries (a : Js.array) : nat :=
  length (filter (fun k => Js.elems a !! k = Some (Some true))
                 (seq 0 (length (Js.elems a)))).

Definition true_marks (p : Player) : nat := true_entries (markedSquares p).








(** ** Notions for the further properties *)

(** [rooms.size], the [activeRooms] value both HTTP endpoints report. *)
Definition activeRooms (s : State) : nat := length (rooms s).

(** A room code as [generateRoomCode] spells it: four letters A to Z. *)
Definition is_upper_letter (c : ascii) : bool :=
  (65 <=? nat_of_ascii c) && (nat_of_ascii c <=? 90).

Definition is_room_code (s : string) : bool :=
  match s with
  | String a (String b (String c (String d EmptyString))) =>
      is_upper_letter a && is_upper_letter b
      && is_upper_letter c && is_upper_letter d
  | _ => false
  end.

(** The values [Math.floor(Math.random() * 26)] can take. *)
Definition random_in_range (i : Input) : Prop :=
  match i with
  | FromSocket _ (CreateRoom _ random) => Forall (fun k => k < 26) random
  | _ => True
  end.

(** The random sort returns a permutation of the pool. *)
Definition shuffle_permutes (i : Input) : Prop :=
  match i with
  | FromSocket _ (StartGame _ shuffle) => ∀ k, CLICHES ≡ₚ shuffle k
  | FromSocket _ (NewRound _ shuffle) => ∀ k, CLICHES ≡ₚ shuffle k
  | _ => True
  end.

(** [v'] marks every cell that [v] marks. *)
Definition marks_more (v v' : list bool) : Prop :=
  ∀ k, v !! k = Some true → v' !! k = Some true.

(** The registry key a room-addressed event looks up. *)
Definition addressed (e : ClientEvent) : option string :=
  match e with
  | CreateRoom _ _ | Disconnect => None
  | JoinRoom roomCode _ => Some (toUpperCase roomCode)
  | StartGame roomCode _ | MarkSquare roomCode _ | NewRound roomCode _
  | ContinueToBlackout roomCode | FinishGame roomCode => Some roomCode
  end.

(** The events reserved to the host. *)
Definition host_only (e : ClientEvent) : bool :=
  match e with
  | StartGame _ _ | NewRound _ _ | ContinueToBlackout _ | FinishGame _ => true
  | _ => false
  end.

Definition is_error (e : Emission) : Prop :=
  match e.2 with Error _ => True | _ => False end.

(** The marks every player starts a round with. *)
Definition initial_marks : Js.array := Js.set (Js.filled 25 false) 12 true.

(** A registry entry is stored under the code its room carries, and that
    code is four letters A to Z. *)
Definition entry_coded (e : string * Room) : Prop :=
  code e.2 = e.1 ∧ is_room_code e.1 = true.

(** [ids] without its first occurrence of [x]. *)
Fixpoint remove_first (x : string) (ids : list string) : list string :=
  match ids with
  | [] => []
  | y :: ids' => if decide (y = x) then ids' else y :: remove_first x ids'
  end.

Definition is_timer_fire (i : Input) : Prop :=
  match i with TimerFires _ => True | _ => False end.

(** Every armed timer belongs to a room that is in the registry and has no
    player. *)
Definition armed_for_empty (s : State) : Prop :=
  ∀ h c due,
    timeouts (timers s) !! h = Some (c, due) →
    ∃ room, JsMap.get (rooms s) c = Some room ∧ players room = [].

(** A card is not dealt yet, or it is a full card: 25 distinct cells with
    FREE SPACE at the centre. *)
Definition card_ok (p : Player) : Prop :=
  bingoCard p = [] ∨
  (length (bingoCard p) = 25 ∧
   bingoCard p !! 12 = Some "FREE SPACE" ∧
   NoDup (bingoCard p)).

Definition all_players (P : Player → Prop) (s : State) : Prop :=
  Forall (fun e => Forall P (players e.2)) (rooms s).

(** No player of any room has this socket id. *)
Definition absent_everywhere (socketId : string) (s : State) : Prop :=
  Forall (fun e => Forall (fun q => id q ≠ socketId) (players e.2)) (rooms s).

(** * Properties *)

(** ** The win evaluator *)

Lemma every_of_bools (a : Js.array) (v : list bool) :
  Js.elems a = Some <$> v →
  Js.every a = true ↔ ∀ k b, v !! k = Some b → b = true.
Proof.
  intros Hel. unfold Js.every. rewrite Hel, forallb_forall. split.
  - intros H k b Hk. apply (H (Some b)).
    apply list_elem_of_In, list_elem_of_fmap. exists b. split; [done|].
    by eapply list_elem_of_lookup_2.
  - intros H x Hx. apply list_elem_of_In, list_elem_of_fmap in Hx as (b & -> & Hb).
    apply list_elem_of_lookup in Hb as [k Hk]. eauto.
Qed.

Lemma checkWin_lines (a : Js.array) (v : list bool) :
  length v = 25 → Js.elems a = Some <$> v →
  checkWin a = existsb (line_marked v) spec_lines.
Proof.
  intros Hlen Hel. destruct a as [el pr]. simpl in Hel. subst el.
  do 25 (destruct v as [|? v]; [discriminate Hlen|]).
  destruct v; [clear Hlen|discriminate Hlen].
  unfold spec_lines. rewrite !existsb_app. unfold checkWin.
  set (R := existsb _ (seq 0 size)).
  set (R' := existsb _ spec_rows).
  assert (R = R') as -> by (vm_compute; reflexivity).
  set (C := existsb _ (seq 0 size)).
  set (C' := existsb _ spec_columns).
  assert (C = C') as -> by (vm_compute; reflexivity).
  set (D := (_ || _)). set (D' := existsb _ spec_diagonals).
  assert (D = D') as ->.
  { subst D D'. cbn. rewrite !andb_true_r, orb_false_r. reflexivity. }
  by destruct R', C'.
Qed.

Lemma line_marked_spec (v : list bool) (line : list nat) :
  line_marked v line = true ↔ ∀ k, k ∈ line → v !! k = Some true.
Proof.
  unfold line_marked. rewrite forallb_forall. split.
  - intros H k Hk. apply list_elem_of_In, H in Hk.
    destruct (v !! k) as [[]|]; simpl in Hk; congruence.
  - intros H k Hk. apply list_elem_of_In, H in Hk. by rewrite Hk.
Qed.

(** C1. The win evaluator on a 25-entry boolean mark vector: in blackout
    mode it answers true iff all 25 entries are true; in regular mode iff
    one of the 5 rows, 5 columns or 2 diagonals of the row-major 5x5 board
    has all its entries true. *)
Theorem hasWon_correct (a : Js.array) (v : list bool) :
  length v = 25 → Js.elems a = Some <$> v →
  (hasWon blackout a = true ↔ ∀ k, k < 25 → v !! k = Some true) ∧
  (hasWon regular a = true ↔
     ∃ line, line ∈ spec_lines ∧ ∀ k, k ∈ line → v !! k = Some true).
Proof.
  intros Hlen Hel. split.
  - simpl. rewrite (every_of_bools a v Hel). split.
    + intros H k Hk. destruct (lookup_lt_is_Some_2 v k) as [b Hb]; [lia|].
      rewrite Hb. f_equal. eauto.
    + intros H k b Hb. pose proof (lookup_lt_Some _ _ _ Hb) as Hlt.
      rewrite H in Hb by lia. congruence.
  - simpl. rewrite (checkWin_lines a v Hlen Hel), existsb_exists.
    split; intros (line & Hin & Hl); exists line.
    + split; [by apply list_elem_of_In|]. by apply line_marked_spec.
    + split; [by apply list_elem_of_In|]. by apply line_marked_spec.
Qed.

Lemma hasWon_correct_witness :
  hasWon blackout (Js.of_bools (replicate 25 true)) = true ∧
  hasWon regular (Js.of_bools (replicate 25 true)) = true.
Proof.
  destruct (hasWon_correct (Js.of_bools (replicate 25 true))
              (replicate 25 true) eq_refl eq_refl) as [Hb Hr].
  split.
  - apply Hb. intros k Hk. apply lookup_replicate_2. exact Hk.
  - apply Hr. exists [0; 1; 2; 3; 4]. split.
    + vm_compute. apply list_elem_of_here.
    + intros k Hk. apply lookup_replicate_2.
      apply list_elem_of_lookup in Hk as [i Hi].
      apply lookup_lt_Some in Hi as Hlt. simpl in Hlt.
      do 5 (destruct i as [|i]; [injection Hi as <-; lia|]). simpl in Hlt. lia.
Defined.

Example checkWin_diagonal :
  checkWin (Js.of_bools
    [true; false; false; false; false;
     false; true; false; false; false;
     false; false; true; false; false;
     false; false; false; true; false;
     false; false; false; false; true]) = true.
Proof. reflexivity. Qed.

Example checkWin_initial :
  checkWin (markedSquares (createPlayer "A" "ann" true)) = false.
Proof. reflexivity. Qed.

Example every_skips_holes :
  Js.every (Js.set (Js.of_bools (replicate 25 true)) 27 true) = true ∧
  Js.length (Js.set (Js.of_bools (replicate 25 true)) 27 true) = 28.
Proof. split; reflexivity. Qed.

Example toUpperCase_mixed : toUpperCase "abCd" = "ABCD".
Proof. reflexivity. Qed.

Example generateRoomCode_retry :
  generateRoomCode
    [("ABCD", mkRoom "ABCD" "A" [] false regular)] [0; 1; 2; 3; 25; 24; 23; 22]
  = Some "ZYXW".
Proof. reflexivity. Qed.

(** ** The card generator *)

Lemma CLICHES_pool : NoDup CLICHES ∧ length CLICHES = 35.
Proof.
  split; [|reflexivity].
  apply (bool_decide_unpack (NoDup CLICHES)). vm_compute. exact I.
Qed.

Section card.

Context (pool shuffled : list string).
Hypothesis pool_distinct : NoDup pool.
Hypothesis pool_size : 24 ≤ length pool.
Hypothesis shuffled_perm : pool ≡ₚ shuffled.

Lemma drawn_length : length (take 24 shuffled) = 24.
Proof.
  rewrite length_take_le; [done|].
  by rewrite <- (Permutation_length shuffled_perm).
Qed.

Lemma drawn_NoDup : NoDup (take 24 shuffled).
Proof.
  eapply sublist_NoDup; [|apply sublist_take].
  by rewrite <- shuffled_perm.
Qed.

Lemma drawn_from_pool x : x ∈ take 24 shuffled → x ∈ pool.
Proof.
  intros Hx. rewrite shuffled_perm.
  eapply sublist_subseteq; [apply sublist_take | exact Hx].
Qed.

(** A cell of the card other than the centre is a drawn phrase: the one
    at the same place before the centre, at the place before it after. *)
Lemma card_cell i x :
  i ≠ 12 → generateBingoCard shuffled !! i = Some x →
  take 24 shuffled !! (if decide (i < 12) then i else i - 1) = Some x.
Proof.
  intros Hi. unfold generateBingoCard, splice_in.
  pose proof drawn_length as Hlen.
  assert (length (take 12 (take 24 shuffled)) = 12) as Htl
    by (rewrite length_take_le; lia).
  case_decide as Hlt.
  - rewrite lookup_app_l by lia. by rewrite lookup_take_lt.
  - rewrite lookup_app_r by lia. rewrite Htl.
    destruct (i - 12) as [|k] eqn:Hk; [lia|]. simpl.
    rewrite lookup_drop. intros <-. f_equal. lia.
Qed.

(** C4. Every generated card has length exactly 25, its cell at index 12
    is the literal FREE SPACE, and its other 24 cells are pairwise
    distinct elements of the phrase pool, whenever the pool holds at
    least 24 distinct entries. A run of the generator is any outcome
    [shuffled] of the random sort, that is any permutation of the pool. *)
Theorem generateBingoCard_shape :
  let card := generateBingoCard shuffled in
  length card = 25 ∧
  card !! 12 = Some "FREE SPACE" ∧
  (∀ i x, i ≠ 12 → card !! i = Some x → x ∈ pool) ∧
  (∀ i j x, i ≠ 12 → j ≠ 12 →
      card !! i = Some x → card !! j = Some x → i = j).
Proof.
  pose proof drawn_length as Hlen.
  assert (length (take 12 (take 24 shuffled)) = 12) as Htl
    by (rewrite length_take_le; lia).
  repeat split.
  - unfold generateBingoCard, splice_in.
    rewrite length_app, Htl. simpl. rewrite length_drop. lia.
  - unfold generateBingoCard, splice_in.
    rewrite lookup_app_r by lia. by rewrite Htl.
  - intros i x Hi Hx. apply drawn_from_pool.
    eapply list_elem_of_lookup_2, card_cell; eauto.
  - intros i j x Hi Hj Hxi Hxj.
    apply card_cell in Hxi; [|done]. apply card_cell in Hxj; [|done].
    pose proof (NoDup_lookup _ _ _ _ drawn_NoDup Hxi Hxj) as Heq.
    repeat case_decide; lia.
Qed.

End card.

Lemma generateBingoCard_shape_witness :
  length (generateBingoCard (reverse CLICHES)) = 25 ∧
  generateBingoCard (reverse CLICHES) !! 12 = Some "FREE SPACE".
Proof.
  destruct (generateBingoCard_shape CLICHES (reverse CLICHES)) as (Hl & Hc & _).
  - apply (proj1 CLICHES_pool).
  - vm_compute. lia.
  - symmetry. apply reverse_Permutation.
  - split; [exact Hl | exact Hc].
Defined.

(** ** The room registry *)

Section registry.

Context {V : Type}.
Implicit Types (m : list (string * V)) (k : string) (v : V).

Lemma get_set_eq m k v : JsMap.get (JsMap.set m k v) k = Some v.
Proof.
  induction m as [|[k' v'] m IH]; simpl.
  - by rewrite decide_True.
  - destruct (decide (k' = k)); simpl.
    + by rewrite decide_True.
    + by rewrite decide_False.
Qed.

Lemma get_set_ne m k k' v :
  k ≠ k' → JsMap.get (JsMap.set m k v) k' = JsMap.get m k'.
Proof.
  intros Hne. induction m as [|[k0 v0] m IH]; simpl.
  - by rewrite decide_False.
  - destruct (decide (k0 = k)) as [->|]; simpl.
    + by rewrite !decide_False.
    + by rewrite IH.
Qed.

Lemma get_delete_eq m k : JsMap.get (JsMap.delete m k) k = None.
Proof.
  induction m as [|[k0 v0] m IH]; simpl; [done|].
  destruct (decide (k0 = k)); simpl; [done|]. by rewrite decide_False.
Qed.

Lemma get_delete_ne m k k' :
  k ≠ k' → JsMap.get (JsMap.delete m k) k' = JsMap.get m k'.
Proof.
  intros Hne. induction m as [|[k0 v0] m IH]; simpl; [done|].
  destruct (decide (k0 = k)) as [->|]; simpl.
  - by rewrite decide_False.
  - by rewrite IH.
Qed.

Lemma keys_set_present m k v v0 :
  JsMap.get m k = Some v0 → (JsMap.set m k v).*1 = m.*1.
Proof.
  induction m as [|[k' v'] m IH]; cbn [JsMap.set JsMap.get]; [done|].
  destruct (decide (k' = k)) as [->|]; [done|].
  intros H. rewrite !fmap_cons. f_equal. auto.
Qed.

Lemma keys_set_fresh m k v :
  JsMap.get m k = None → (JsMap.set m k v).*1 = m.*1 ++ [k].
Proof.
  induction m as [|[k' v'] m IH]; cbn [JsMap.set JsMap.get]; [done|].
  destruct (decide (k' = k)) as [->|]; [done|].
  intros H. rewrite !fmap_cons. simpl. f_equal. auto.
Qed.

Lemma get_Some_key m k v : JsMap.get m k = Some v → k ∈ m.*1.
Proof.
  induction m as [|[k' v'] m IH]; simpl; [done|].
  destruct (decide (k' = k)) as [->|]; [left|right; auto].
Qed.

Lemma get_None_key m k : JsMap.get m k = None → k ∉ m.*1.
Proof.
  induction m as [|[k' v'] m IH]; simpl; [intros _; apply not_elem_of_nil|].
  destruct (decide (k' = k)) as [->|]; [done|].
  intros H. apply not_elem_of_cons. split; [done|auto].
Qed.

Lemma has_true m k : JsMap.has m k = true ↔ is_Some (JsMap.get m k).
Proof.
  unfold JsMap.has. destruct (JsMap.get m k); split; try done.
Qed.

End registry.

(** ** [continue-to-blackout] *)

(** C8. Sent by the host of an existing room, [continue-to-blackout]
    changes only the game mode of that room, to blackout: its code, its
    started flag, its host, its player list (hence every card and mark
    vector), every other room and the timers are unchanged, and
    [blackout-mode-started] is broadcast to the whole room. *)
Theorem continue_to_blackout_frame (s : State) (socketId roomCode : string)
    (room : Room) :
  JsMap.get (rooms s) roomCode = Some room →
  host room = socketId →
  ∃ s' room',
    handle socketId (ContinueToBlackout roomCode) s
      = Some (s', [(ToRoom roomCode, BlackoutModeStarted blackout)]) ∧
    JsMap.get (rooms s') roomCode = Some room' ∧
    gameMode room' = blackout ∧
    code room' = code room ∧
    host room' = host room ∧
    gameStarted room' = gameStarted room ∧
    players room' = players room ∧
    (∀ c, c ≠ roomCode → JsMap.get (rooms s') c = JsMap.get (rooms s) c) ∧
    (rooms s').*1 = (rooms s).*1 ∧
    timers s' = timers s.
Proof.
  intros Hget Hhost. simpl. unfold on_continue_to_blackout.
  rewrite Hget. rewrite decide_False by (intros H; by apply H).
  eexists _, _. split; [reflexivity|]. simpl.
  rewrite get_set_eq. repeat split; try reflexivity.
  - intros c Hc. by rewrite get_set_ne.
  - by eapply keys_set_present.
Qed.

Lemma continue_to_blackout_frame_witness :
  ∃ s',
    handle "A" (ContinueToBlackout "ABCD")
      (mkState [("ABCD", mkRoom "ABCD" "A" [createPlayer "A" "ann" true]
                                false regular)]
               (timers initial))
    = Some (s', [(ToRoom "ABCD", BlackoutModeStarted blackout)]).
Proof.
  destruct (continue_to_blackout_frame
              (mkState [("ABCD", mkRoom "ABCD" "A"
                                        [createPlayer "A" "ann" true]
                                        false regular)]
                       (timers initial))
              "A" "ABCD" _ eq_refl eq_refl) as (s' & room' & H & _).
  exists s'. exact H.
Defined.

(** ** [finish-game] *)

Lemma scan_winner_fold (suf pre : list Player) (w w' : Player) (m m' : nat)
    (k : nat) :
  pre !! k = Some w → m = marked_count w →
  (∀ j p, pre !! j = Some p → marked_count p ≤ m) →
  (∀ j p, pre !! j = Some p → j < k → marked_count p < m) →
  fold_left
    (fun '(winner, maxMarked) player =>
       let markedCount := Js.count (markedSquares player) in
       if maxMarked <? markedCount then (player, markedCount)
       else (winner, maxMarked))
    suf (w, m) = (w', m') →
  ∃ k', (pre ++ suf) !! k' = Some w' ∧ m' = marked_count w' ∧
    (∀ j p, (pre ++ suf) !! j = Some p → marked_count p ≤ m') ∧
    (∀ j p, (pre ++ suf) !! j = Some p → j < k' → marked_count p < m').
Proof.
  revert pre w m k. induction suf as [|q suf IH]; intros pre w m k Hk Hm Hle Hlt.
  - simpl. intros [= <- <-]. rewrite app_nil_r. eauto.
  - simpl. fold (marked_count q).
    replace (pre ++ q :: suf) with ((pre ++ [q]) ++ suf)
      by (by rewrite <- app_assoc).
    pose proof (lookup_lt_Some _ _ _ Hk) as Hklt.
    destruct (m <? marked_count q) eqn:Hcmp.
    + apply Nat.ltb_lt in Hcmp.
      apply (IH (pre ++ [q]) q (marked_count q) (length pre)).
      * by rewrite list_lookup_middle.
      * done.
      * intros j p Hj. apply lookup_app_Some in Hj as [Hj|[Hge Hj]].
        -- specialize (Hle _ _ Hj). lia.
        -- apply list_lookup_singleton_Some in Hj as [_ <-]. lia.
      * intros j p Hj Hjlt. rewrite lookup_app_l in Hj by lia.
        specialize (Hle _ _ Hj). lia.
    + apply Nat.ltb_ge in Hcmp.
      apply (IH (pre ++ [q]) w m k).
      * by apply lookup_app_l_Some.
      * done.
      * intros j p Hj. apply lookup_app_Some in Hj as [Hj|[Hge Hj]].
        -- eauto.
        -- apply list_lookup_singleton_Some in Hj as [_ <-]. lia.
      * intros j p Hj Hjlt. rewrite lookup_app_l in Hj by lia. eauto.
Qed.

Lemma filter_ext_in {A} (P1 P2 : A → Prop) `{∀ x, Decision (P1 x)}
    `{∀ x, Decision (P2 x)} (l : list A) :
  (∀ x, x ∈ l → P1 x ↔ P2 x) → filter P1 l = filter P2 l.
Proof.
  induction l as [|x l IH]; intros Hext; [done|].
  rewrite !filter_cons.
  rewrite IH by (intros y Hy; apply Hext; by right).
  destruct (decide (P1 x)) as [H1|H1], (decide (P2 x)) as [H2|H2]; try done.
  - destruct H2. apply Hext; [left|done].
  - destruct H1. apply Hext; [left|done].
Qed.

(** The counting code counts the positions whose entry is true. *)
Lemma count_true_entries (a : Js.array) : Js.count a = true_entries a.
Proof.
  unfold Js.count, true_entries. generalize (Js.elems a) as l. clear a.
  induction l as [|x l IH] using rev_ind; [done|].
  rewrite List.filter_app, !length_app, seq_app, filter_app, length_app.
  simpl. f_equal.
  - rewrite IH. f_equal. apply filter_ext_in. intros k Hk.
    apply elem_of_seq in Hk. by rewrite lookup_app_l by lia.
  - rewrite filter_cons, filter_nil, list_lookup_middle by done.
    destruct x as [[|]|]; destruct (decide _) as [Heq|Hne]; simpl;
      try done; congruence.
Qed.

Lemma marked_count_true (p : Player) : marked_count p = true_marks p.
Proof. apply count_true_entries. Qed.

(** C7. For a room with at least one player, [finish-game] sent by the
    host announces, to the whole room, the player with the maximum count
    of true marks, the earliest such player in join order, and that
    maximum as [markedCount]; the count is the number of positions of the
    marks vector whose entry is true. *)
Theorem finish_game_winner (s : State) (socketId roomCode : string)
    (room : Room) :
  JsMap.get (rooms s) roomCode = Some room →
  host room = socketId →
  players room ≠ [] →
  ∃ k w,
    players room !! k = Some w ∧
    handle socketId (FinishGame roomCode) s
      = Some (s, [(ToRoom roomCode,
                   GameFinished (id w) (username w) (true_marks w))]) ∧
    (∀ j p, players room !! j = Some p → true_marks p ≤ true_marks w) ∧
    (∀ j p, players room !! j = Some p → j < k →
            true_marks p < true_marks w).
Proof.
  intros Hget Hhost Hne. simpl. unfold on_finish_game.
  rewrite Hget. rewrite decide_False by (intros H; by apply H).
  destruct (players room) as [|first rest] eqn:Hps; [done|].
  unfold scan_winner. simpl. rewrite Nat.ltb_irrefl.
  destruct (fold_left _ rest _) as [w m] eqn:Hfold.
  destruct (scan_winner_fold rest [first] first w _ m 0 eq_refl eq_refl)
    as (k' & Hk' & -> & Hle & Hlt).
  - intros j p Hj. apply list_lookup_singleton_Some in Hj as [_ <-]. done.
  - intros j p _ Hj. lia.
  - exact Hfold.
  - exists k', w. simpl in *. rewrite <- marked_count_true.
    split_and!; [done..| |].
    + intros j p Hj. rewrite <- !marked_count_true. eauto.
    + intros j p Hj Hjk. rewrite <- !marked_count_true. eauto.
Qed.

Lemma finish_game_winner_witness :
  ∃ k w,
    [createPlayer "A" "ann" true;
     mkPlayer "B" "bob" false [] (toggled (toggled initial_marks 3) 7)]
      !! k = Some w ∧
    handle "A" (FinishGame "ABCD")
      (mkState [("ABCD", mkRoom "ABCD" "A"
                           [createPlayer "A" "ann" true;
                            mkPlayer "B" "bob" false []
                              (toggled (toggled initial_marks 3) 7)]
                           false regular)]
               (timers initial))
    = Some (mkState [("ABCD", mkRoom "ABCD" "A"
                           [createPlayer "A" "ann" true;
                            mkPlayer "B" "bob" false []
                              (toggled (toggled initial_marks 3) 7)]
                           false regular)]
               (timers initial),
            [(ToRoom "ABCD",
              GameFinished (id w) (username w) (true_marks w))]).
Proof.
  destruct (finish_game_winner
              (mkState [("ABCD", mkRoom "ABCD" "A"
                           [createPlayer "A" "ann" true;
                            mkPlayer "B" "bob" false []
                              (toggled (toggled initial_marks 3) 7)]
                           false regular)]
               (timers initial))
              "A" "ABCD" _ eq_refl eq_refl) as (k & w & Hk & H & _).
  - discriminate.
  - exists k, w. split; [exact Hk | exact H].
Defined.

(** ** [join-room]: the room code is upper-cased *)









(** ** [mark-square] *)

Lemma list_find_insert {A} (P : A → Prop) `{∀ x, Decision (P x)}
    (l : list A) (k : nat) (x x' : A) :
  list_find P l = Some (k, x) → P x' →
  list_find P (<[k := x']> l) = Some (k, x').
Proof.
  intros Hfind HP. apply list_find_Some in Hfind as (Hk & _ & Hbefore).
  apply list_find_Some. split_and!.
  - apply list_lookup_insert_eq. by eapply lookup_lt_Some.
  - done.
  - intros j y Hj Hlt. rewrite list_lookup_insert_ne in Hj by lia. eauto.
Qed.

(** One [mark-square] by a player of the room: the new state holds the
    toggled marks under the same player position. *)
Lemma on_mark_square_player (s : State) (socketId roomCode : string)
    (index : Z) (room : Room) (k : nat) (p : Player) :
  JsMap.get (rooms s) roomCode = Some room →
  list_find (fun q => id q = socketId) (players room) = Some (k, p) →
  ∃ s' out room' p',
    on_mark_square socketId roomCode index s = (s', out) ∧
    JsMap.get (rooms s') roomCode = Some room' ∧
    gameMode room' = gameMode room ∧
    list_find (fun q => id q = socketId) (players room') = Some (k, p') ∧
    username p' = username p ∧
    markedSquares p' = toggled (markedSquares p) index ∧
    wins out =
      (if hasWon (gameMode room) (markedSquares p')
       then [(ToRoom roomCode,
              PlayerWon socketId (username p) (gameMode room)
                        (Js.count (markedSquares p')))]
       else []).
Proof.
  intros Hget Hfind. unfold on_mark_square. rewrite Hget, Hfind.
  eexists _, _, _, _. split; [reflexivity|]. simpl.
  rewrite get_set_eq. split; [reflexivity|]. simpl.
  split; [done|]. split.
  - eapply list_find_insert; [exact Hfind|]. simpl.
    by apply list_find_Some in Hfind as (_ & ? & _).
  - split; [done|]. split; [done|].
    unfold wins. simpl. fold (toggled (markedSquares p) index).
    by destruct (hasWon _ _).
Qed.

Lemma run_mark_squares (socketId roomCode : string) (idxs : list Z) :
  ∀ (s : State) (room : Room) (k : nat) (p : Player),
  JsMap.get (rooms s) roomCode = Some room →
  list_find (fun q => id q = socketId) (players room) = Some (k, p) →
  ∃ s' outs,
    run s ((fun i => FromSocket socketId (MarkSquare roomCode i)) <$> idxs)
      = Some (s', outs) ∧
    wins <$> outs =
      win_trace roomCode socketId (username p) (gameMode room)
                (markedSquares p) idxs.
Proof.
  induction idxs as [|i idxs IH]; intros s room k p Hget Hfind.
  - by eexists _, _.
  - destruct (on_mark_square_player s socketId roomCode i room k p Hget Hfind)
      as (s1 & out & room1 & p1 & Hstep & Hget1 & Hmode & Hfind1 & Hname
          & Hmarks & Hwins).
    destruct (IH s1 room1 k p1 Hget1 Hfind1) as (s' & outs & Hrun & Htrace).
    exists s', (out :: outs). split.
    + rewrite fmap_cons. cbn [run step handle]. by rewrite Hstep, Hrun.
    + rewrite fmap_cons. cbn [win_trace]. rewrite Hwins, Htrace.
      by rewrite Hname, Hmode, Hmarks.
Qed.

Lemma row0_trace (roomCode socketId name : string) (idxs : list Z) :
  [0; 1; 2; 3; 4]%Z ≡ₚ idxs →
  win_trace roomCode socketId name regular
            (markedSquares (createPlayer socketId name false)) idxs
  = [[]; []; []; [];
     [(ToRoom roomCode, PlayerWon socketId name regular 6)]].
Proof.
  intros Hperm. apply permutations_Permutation in Hperm.
  revert idxs Hperm. apply Forall_forall.
  vm_compute permutations.
  repeat (apply Forall_cons; split; [vm_compute; reflexivity|]).
  apply Forall_nil_2.
Qed.

(** C5. A player whose marks are in the initial state (all false except
    index 12) in a room in regular mode marks the five cells of row 0
    (indices 0 to 4, one at a time, in any order): [player-won] is
    broadcast exactly once, by the fifth [mark-square], and by none of the
    first four. *)
Theorem row0_wins_once (s : State) (socketId roomCode : string) (room : Room)
    (k : nat) (p : Player) (idxs : list Z) :
  JsMap.get (rooms s) roomCode = Some room →
  gameMode room = regular →
  list_find (fun q => id q = socketId) (players room) = Some (k, p) →
  markedSquares p = Js.set (Js.filled 25 false) 12 true →
  [0; 1; 2; 3; 4]%Z ≡ₚ idxs →
  ∃ s' outs,
    run s ((fun i => FromSocket socketId (MarkSquare roomCode i)) <$> idxs)
      = Some (s', outs) ∧
    wins <$> outs =
      [[]; []; []; [];
       [(ToRoom roomCode, PlayerWon socketId (username p) regular 6)]].
Proof.
  intros Hget Hmode Hfind Hinit Hperm.
  destruct (run_mark_squares socketId roomCode idxs s room k p Hget Hfind)
    as (s' & outs & Hrun & Htrace).
  exists s', outs. split; [done|].
  rewrite Htrace, Hmode, Hinit.
  by apply (row0_trace roomCode socketId (username p) idxs).
Qed.

Lemma row0_wins_once_witness :
  ∃ s' outs,
    run (mkState [("ABCD", mkRoom "ABCD" "A" [createPlayer "A" "ann" true]
                                  true regular)]
                 (timers initial))
        ((fun i => FromSocket "A" (MarkSquare "ABCD" i)) <$> [0; 1; 2; 3; 4]%Z)
      = Some (s', outs) ∧
    wins <$> outs =
      [[]; []; []; []; [(ToRoom "ABCD", PlayerWon "A" "ann" regular 6)]].
Proof.
  exact (row0_wins_once
           (mkState [("ABCD", mkRoom "ABCD" "A" [createPlayer "A" "ann" true]
                                     true regular)]
                    (timers initial))
           "A" "ABCD" _ 0 (createPlayer "A" "ann" true) [0; 1; 2; 3; 4]%Z
           eq_refl eq_refl eq_refl eq_refl (Permutation_refl _)).
Defined.

(** ** Runs of the event loop *)

Lemma run_invariant (P : State → Prop) (Q : Input → Prop) :
  (∀ s i s' o, P s → Q i → step s i = Some (s', o) → P s') →
  ∀ inputs s s' outs,
    P s → Forall Q inputs → run s inputs = Some (s', outs) → P s'.
Proof.
  intros Hstep. induction inputs as [|i inputs IH]; intros s s' outs HP HQ.
  - simpl. by intros [= <- _].
  - apply Forall_cons in HQ as [Hi HQ]. simpl.
    destruct (step s i) as [[s1 o]|] eqn:Hs; [|done].
    destruct (run s1 inputs) as [[s2 os]|] eqn:Hr; [|done].
    intros [= <- _]. apply (IH s1 s2 os); [|done|done].
    by apply (Hstep s i s1 o).
Qed.

Lemma run_app (s : State) (l1 l2 : list Input) :
  run s (l1 ++ l2) =
    match run s l1 with
    | Some (s1, o1) =>
        match run s1 l2 with
        | Some (s2, o2) => Some (s2, o1 ++ o2)
        | None => None
        end
    | None => None
    end.
Proof.
  revert s. induction l1 as [|i l1 IH]; intros s; simpl.
  - by destruct (run s l2) as [[? ?]|].
  - destruct (step s i) as [[s1 o]|]; [|done]. rewrite IH.
    destruct (run s1 l1) as [[s2 o1]|]; [|done].
    by destruct (run s2 l2) as [[? ?]|].
Qed.

Lemma reachable_step (s s' : State) (i : Input) (o : list Emission) :
  reachable s → step s i = Some (s', o) → reachable s'.
Proof.
  intros (inputs & outs & Hrun) Hstep.
  exists (inputs ++ [i]), (outs ++ [o]).
  rewrite run_app, Hrun. simpl. by rewrite Hstep.
Qed.

(** ** The length of the marks arrays *)

Section registry_Forall.

Context {V : Type} (P : string * V → Prop).
Implicit Types (m : list (string * V)) (k : string) (v : V).

Lemma Forall_set m k v : Forall P m → P (k, v) → Forall P (JsMap.set m k v).
Proof.
  intros Hm Hv. induction Hm as [|[k' v'] m Hx Hm IH]; simpl.
  - by apply Forall_singleton.
  - destruct (decide (k' = k)); apply Forall_cons; auto.
Qed.

Lemma Forall_remove m k : Forall P m → Forall P (JsMap.delete m k).
Proof.
  intros Hm. induction Hm as [|[k' v'] m Hx Hm IH]; simpl; [done|].
  destruct (decide (k' = k)); [done|]. by apply Forall_cons.
Qed.

Lemma Forall_get m k v : Forall P m → JsMap.get m k = Some v → P (k, v).
Proof.
  intros Hm. induction Hm as [|[k' v'] m Hx Hm IH]; simpl; [done|].
  destruct (decide (k' = k)) as [->|]; [by intros [= <-]|done].
Qed.

End registry_Forall.

Lemma initial_marks_length :
  Js.length (Js.set (Js.filled 25 false) 12 true) = 25.
Proof. reflexivity. Qed.

Lemma set_slot_length (l : list (option bool)) (k : nat) (v : bool) :
  length (Js.set_slot l k v) = max (length l) (S k).
Proof.
  unfold Js.set_slot. case_decide.
  - rewrite length_insert. lia.
  - rewrite !length_app, length_replicate. simpl. lia.
Qed.

Lemma toggled_length (a : Js.array) (i : Z) :
  Js.length (toggled a i) =
    if Js.is_index i then max (Js.length a) (S (Z.to_nat i)) else Js.length a.
Proof.
  unfold toggled, Js.set, Js.length. destruct (Js.is_index i); simpl; [|done].
  apply set_slot_length.
Qed.

Lemma toggled_length_25 (a : Js.array) (i : Z) :
  Js.length a = 25 → (Js.is_index i = true → (i < 25)%Z) →
  Js.length (toggled a i) = 25.
Proof.
  intros Ha Hi. rewrite toggled_length, Ha.
  destruct (Js.is_index i) eqn:Hidx; [|done].
  specialize (Hi eq_refl). unfold Js.is_index in Hidx. lia.
Qed.

Lemma Forall_imap {A B} (P : A → Prop) (Q : B → Prop) (f : nat → A → B)
    (l : list A) :
  (∀ k x, P x → Q (f k x)) → Forall P l → Forall Q (imap f l).
Proof.
  intros Hf Hl. apply Forall_lookup_2. intros i y Hy.
  rewrite list_lookup_imap in Hy.
  destruct (l !! i) as [x|] eqn:Hx; simpl in Hy; [|done].
  injection Hy as <-. apply Hf. by eapply Forall_lookup_1.
Qed.

Lemma disconnect_room_marks (socketId roomCode : string) (room : Room)
    (t : Timers) :
  room_marks_25 room →
  room_marks_25 (disconnect_room socketId roomCode room t).1.1.
Proof.
  unfold disconnect_room, room_marks_25. intros Hroom.
  destruct (list_find _ _) as [[i player]|]; [|done].
  pose proof (Forall_delete _ _ i Hroom) as Hdel.
  destruct (delete i (players room)) as [|p0 rest]; simpl; [done|].
  apply Forall_cons in Hdel as [H0 Hrest].
  destruct (isHost player); simpl; by apply Forall_cons.
Qed.

Lemma disconnect_each_marks (socketId : string)
    (entries : list (string * Room)) (t : Timers) :
  Forall (fun e => room_marks_25 e.2) entries →
  Forall (fun e => room_marks_25 e.2) (disconnect_each socketId entries t).1.1.
Proof.
  intros H. revert t. induction H as [|[c room] entries Hroom _ IH]; intros t.
  - done.
  - simpl.
    pose proof (disconnect_room_marks socketId c room t Hroom) as H1.
    destruct (disconnect_room socketId c room t) as [[room' t1] out1].
    specialize (IH t1).
    destruct (disconnect_each socketId entries t1) as [[rest t2] out2].
    simpl in *. by apply Forall_cons.
Qed.

Lemma step_marks_25 (s : State) (i : Input) (s' : State) (o : list Emission) :
  marks_25 s → index_in_bounds i → step s i = Some (s', o) → marks_25 s'.
Proof.
  unfold marks_25. intros Hs Hi.
  destruct i as [socketId e|h|dt]; simpl.
  - destruct e as [name random|roomCode name|roomCode shuffle|roomCode index
                   |roomCode shuffle|roomCode|roomCode|]; simpl.
    + unfold on_create_room.
      destruct (generateRoomCode _ _) as [c|]; [|done].
      intros [= <- _]. simpl. apply Forall_set; [done|].
      apply Forall_singleton, initial_marks_length.
    + unfold on_join_room.
      destruct (JsMap.get _ _) as [room|] eqn:Hget; [|by intros [= <- _]].
      pose proof (Forall_get _ _ _ _ Hs Hget) as Hroom.
      destruct (gameStarted room); intros [= <- _]; simpl; [done|].
      apply Forall_set; [done|]. simpl. apply Forall_app. split; [done|].
      apply Forall_singleton, initial_marks_length.
    + unfold on_start_game.
      destruct (JsMap.get _ _) as [room|] eqn:Hget; [|by intros [= <- _]].
      pose proof (Forall_get _ _ _ _ Hs Hget) as Hroom.
      case_decide; intros [= <- _]; simpl; [done|].
      apply Forall_set; [done|]. simpl.
      eapply Forall_imap; [|exact Hroom]. by intros k p Hp.
    + unfold on_mark_square.
      destruct (JsMap.get _ _) as [room|] eqn:Hget; [|by intros [= <- _]].
      pose proof (Forall_get _ _ _ _ Hs Hget) as Hroom.
      destruct (list_find _ _) as [[k player]|] eqn:Hfind;
        [|by intros [= <- _]].
      intros [= <- _]. simpl. apply Forall_set; [done|]. simpl.
      apply Forall_insert; [done|]. simpl.
      apply list_find_Some in Hfind as (Hk & _ & _).
      apply (toggled_length_25 (markedSquares player) index); [|done].
      by apply (Forall_lookup_1 _ _ _ _ Hroom Hk).
    + unfold on_new_round.
      destruct (JsMap.get _ _) as [room|] eqn:Hget; [|by intros [= <- _]].
      case_decide; intros [= <- _]; simpl; [done|].
      apply Forall_set; [done|]. simpl.
      eapply (Forall_imap (fun _ => True)); [|by apply Forall_true].
      intros k p _. apply initial_marks_length.
    + unfold on_continue_to_blackout.
      destruct (JsMap.get _ _) as [room|] eqn:Hget; [|by intros [= <- _]].
      pose proof (Forall_get _ _ _ _ Hs Hget) as Hroom.
      case_decide; intros [= <- _]; simpl; [done|].
      by apply Forall_set.
    + unfold on_finish_game.
      destruct (JsMap.get _ _) as [room|] eqn:Hget; [|by intros [= <- _]].
      case_decide; [by intros [= <- _]|].
      destruct (players room); [done|].
      destruct (scan_winner _ _). by intros [= <- _].
    + unfold on_disconnect.
      pose proof (disconnect_each_marks socketId (rooms s) (timers s) Hs) as H.
      destruct (disconnect_each _ _ _) as [[rooms' t] out].
      by intros [= <- _].
  - destruct (timeouts _ !! h) as [[roomCode due]|]; [|done].
    case_decide; [|done]. intros [= <- _].
    unfold cleanupCallback. simpl.
    destruct (JsMap.get _ _) as [room|]; [|done].
    destruct (players room); [|done]. simpl. by apply Forall_remove.
  - case_decide; [|done]. by intros [= <- _].
Qed.

(** C2 (as amended). As long as every [mark-square] index is an integer
    that does not name an array slot past the board (it is not in the
    range 25 to 2^32 - 2), every player of every live room has a marks
    array of length exactly 25 after every sequence of turns of the event
    loop. *)
Theorem marks_length_25 (inputs : list Input) (s : State)
    (outs : list (list Emission)) :
  Forall index_in_bounds inputs →
  run initial inputs = Some (s, outs) →
  ∀ roomCode room p,
    JsMap.get (rooms s) roomCode = Some room →
    p ∈ players room →
    Js.length (markedSquares p) = 25.
Proof.
  intros Hin Hrun roomCode room p Hget Hp.
  assert (marks_25 s) as Hs.
  { eapply (run_invariant marks_25 index_in_bounds); [|..|exact Hrun].
    - intros ? ? ? ?. apply step_marks_25.
    - apply Forall_nil_2.
    - exact Hin. }
  pose proof (Forall_get _ _ _ _ Hs Hget) as Hroom. simpl in Hroom.
  unfold room_marks_25 in Hroom. rewrite Forall_forall in Hroom. auto.
Qed.

Lemma marks_length_25_witness :
  ∃ s outs,
    run initial [FromSocket "A" (CreateRoom "ann" [0; 1; 2; 3]);
                 FromSocket "A" (MarkSquare "ABCD" 24)] = Some (s, outs) ∧
    ∀ roomCode room p,
      JsMap.get (rooms s) roomCode = Some room →
      p ∈ players room →
      Js.length (markedSquares p) = 25.
Proof.
  eexists _, _. split; [reflexivity|].
  eapply (marks_length_25
            [FromSocket "A" (CreateRoom "ann" [0; 1; 2; 3]);
             FromSocket "A" (MarkSquare "ABCD" 24)]).
  - repeat (apply Forall_cons; split); [exact I| |apply Forall_nil_2].
    simpl. lia.
  - reflexivity.
Defined.

Lemma out_of_range_mark_extends :
  ∃ s outs room p,
    run initial out_of_range_mark = Some (s, outs) ∧
    JsMap.get (rooms s) "ABCD" = Some room ∧
    players room = [p] ∧
    Js.length (markedSquares p) = 26.
Proof.
  eexists _, _, _, _. split; [reflexivity|].
  split; [reflexivity|]. split; reflexivity.
Qed.

(** C2, counterexample. A [mark-square] with index 25 extends the marks
    array of the requester to length 26, so the length is not 25 after
    every sequence of handler invocations. *)
Lemma marks_length_not_invariant :
  ¬ (∀ (inputs : list Input) (s : State) (outs : list (list Emission))
       roomCode room p,
       run initial inputs = Some (s, outs) →
       JsMap.get (rooms s) roomCode = Some room →
       p ∈ players room →
       Js.length (markedSquares p) = 25).
Proof.
  intros H.
  destruct out_of_range_mark_extends
    as (s & outs & room & p & Hrun & Hget & Hps & Hlen).
  specialize (H _ _ _ _ _ p Hrun Hget). rewrite Hlen in H.
  discriminate H. rewrite Hps. apply list_elem_of_here.
Qed.

(** ** Error paths *)

Lemma disconnect_each_no_error (socketId sid message : string)
    (entries : list (string * Room)) (t : Timers) (o : list Emission) :
  (disconnect_each socketId entries t).2 = o →
  (ToSocket sid, Error message) ∉ o.
Proof.
  revert t o. induction entries as [|[c room] entries IH]; intros t o; simpl.
  - intros <-. apply not_elem_of_nil.
  - destruct (disconnect_room socketId c room t) as [[room' t1] out1] eqn:H1.
    specialize (IH t1 _ eq_refl).
    destruct (disconnect_each socketId entries t1) as [[rest t2] out2].
    simpl in *. intros <-. apply not_elem_of_app. split; [|done].
    unfold disconnect_room in H1.
    destruct (list_find _ _) as [[i player]|].
    + destruct (delete i (players room)).
      * injection H1 as _ _ <-. apply not_elem_of_nil.
      * destruct (isHost player); injection H1 as _ _ <-;
          intros Hin; apply list_elem_of_singleton in Hin; done.
    + injection H1 as _ _ <-. apply not_elem_of_nil.
Qed.

(** Apart from [join-room], a handler that answers the requester with an
    error leaves the whole state as it was. *)
Lemma error_leaves_state (s s' : State) (socketId message : string)
    (e : ClientEvent) (out : list Emission) :
  (∀ roomCode name, e ≠ JoinRoom roomCode name) →
  handle socketId e s = Some (s', out) →
  (ToSocket socketId, Error message) ∈ out →
  s' = s.
Proof.
  intros Hnj.
  destruct e as [name random|roomCode name|roomCode shuffle|roomCode index
                 |roomCode shuffle|roomCode|roomCode|]; simpl.
  - unfold on_create_room.
    destruct (generateRoomCode _ _) as [c|]; [|done].
    intros [= <- <-] Hin. apply list_elem_of_singleton in Hin. done.
  - by destruct (Hnj roomCode name).
  - unfold on_start_game.
    destruct (JsMap.get _ _) as [room|]; [|by intros [= <- _]].
    case_decide; [by intros [= <- _]|]. intros [= <- <-] Hin.
    apply list_elem_of_fmap in Hin as (p & Hp & _). done.
  - unfold on_mark_square.
    destruct (JsMap.get _ _) as [room|]; [|by intros [= <- _]].
    destruct (list_find _ _) as [[k player]|]; [|by intros [= <- _]].
    intros [= <- <-] Hin. apply elem_of_cons in Hin as [Hin|Hin]; [done|].
    destruct (hasWon _ _); [|by apply not_elem_of_nil in Hin].
    apply list_elem_of_singleton in Hin. done.
  - unfold on_new_round.
    destruct (JsMap.get _ _) as [room|]; [|by intros [= <- _]].
    case_decide; [by intros [= <- _]|]. intros [= <- <-] Hin.
    apply list_elem_of_fmap in Hin as (p & Hp & _). done.
  - unfold on_continue_to_blackout.
    destruct (JsMap.get _ _) as [room|]; [|by intros [= <- _]].
    case_decide; [by intros [= <- _]|]. intros [= <- <-] Hin.
    apply list_elem_of_singleton in Hin. done.
  - unfold on_finish_game.
    destruct (JsMap.get _ _) as [room|]; [|by intros [= <- _]].
    case_decide; [by intros [= <- _]|].
    destruct (players room); [done|].
    destruct (scan_winner _ _). by intros [= <- _].
  - unfold on_disconnect.
    destruct (disconnect_each _ _ _) as [[rooms' t] o] eqn:Heach.
    intros [= <- <-] Hin. exfalso.
    eapply disconnect_each_no_error; [|exact Hin]. by rewrite Heach.
Qed.

(** What [join-room] does for a started room: the error only, the
    registry as it was, and the cleanup of the room cancelled. *)
Lemma join_started_room (s : State) (socketId roomCode name : string)
    (room : Room) :
  JsMap.get (rooms s) (toUpperCase roomCode) = Some room →
  gameStarted room = true →
  handle socketId (JoinRoom roomCode name) s
    = Some (mkState (rooms s)
                    (cancelRoomCleanup (toUpperCase roomCode) (timers s)),
            [(ToSocket socketId, Error "Game already in progress")]).
Proof.
  intros Hget Hstarted. simpl. unfold on_join_room.
  by rewrite Hget, Hstarted.
Qed.

(** A handler returns, unless [create-room] runs out of the supplied
    random values or [finish-game] is sent by the host of an empty room. *)
Lemma handle_returns (socketId : string) (e : ClientEvent) (s : State) :
  (∀ name random, e = CreateRoom name random →
     is_Some (generateRoomCode (rooms s) random)) →
  (∀ roomCode room, e = FinishGame roomCode →
     JsMap.get (rooms s) roomCode = Some room → host room = socketId →
     players room ≠ []) →
  is_Some (handle socketId e s).
Proof.
  intros Hcreate Hfinish.
  destruct e as [name random|roomCode name|roomCode shuffle|roomCode index
                 |roomCode shuffle|roomCode|roomCode|]; simpl; try done.
  - unfold on_create_room.
    destruct (Hcreate name random eq_refl) as [c ->]. done.
  - unfold on_finish_game.
    destruct (JsMap.get _ _) as [room|] eqn:Hget; [|done].
    case_decide as Hh; [done|].
    destruct (players room) as [|first rest] eqn:Hps.
    + exfalso. apply (Hfinish roomCode room eq_refl Hget); [|done].
      by destruct (decide (host room = socketId)).
    + by destruct (scan_winner _ _).
Qed.

(** C3, the failing input. After [abandoned_started_game] the room ABCD is
    empty, started, and its cleanup timer is armed. A [join-room] for it is
    answered with the game-in-progress error only, the registry is left as
    it was, but the pending timer is cleared and forgotten. *)
Theorem join_started_room_cancels_cleanup :
  ∃ s outs s' room,
    run initial abandoned_started_game = Some (s, outs) ∧
    JsMap.get (rooms s) "ABCD" = Some room ∧
    gameStarted room = true ∧
    players room = [] ∧
    roomTimers (timers s) !! "ABCD" = Some 0 ∧
    timeouts (timers s) !! 0 = Some ("ABCD", ROOM_TIMEOUT) ∧
    step s (FromSocket "B" (JoinRoom "ABCD" "bob"))
      = Some (s', [(ToSocket "B", Error "Game already in progress")]) ∧
    rooms s' = rooms s ∧
    roomTimers (timers s') !! "ABCD" = None ∧
    timeouts (timers s') !! 0 = None ∧
    s' ≠ s.
Proof.
  eexists _, _, _, _. split; [reflexivity|].
  split; [reflexivity|]. split; [reflexivity|]. split; [reflexivity|].
  split; [reflexivity|]. split; [reflexivity|]. split; [reflexivity|].
  split; [reflexivity|]. split; [reflexivity|]. split; [reflexivity|].
  intros Heq. apply (f_equal (fun x => roomTimers (timers x) !! "ABCD")) in Heq.
  vm_compute in Heq. discriminate Heq.
Qed.

(** ** Host succession *)

(** When the player that leaves is the host and others remain, the first
    remaining player becomes the host. *)
Lemma disconnect_room_promotes (socketId roomCode : string) (room : Room)
    (t : Timers) (i : nat) (player p0 : Player) (rest : list Player) :
  list_find (fun p => id p = socketId) (players room) = Some (i, player) →
  delete i (players room) = p0 :: rest →
  isHost player = true →
  ∃ room' t',
    disconnect_room socketId roomCode room t
      = (room', t', [(ToRoom roomCode, NewHost (players room'))]) ∧
    players room' = set_isHost true p0 :: rest ∧
    host room' = id p0.
Proof.
  intros Hfind Hdel Hhost. unfold disconnect_room.
  rewrite Hfind, Hdel, Hhost.
  exists (set_host (id p0) (set_players (set_isHost true p0 :: rest) room)),
         (cancelRoomCleanup roomCode t).
  split; [reflexivity|]. split; reflexivity.
Qed.

(** C6, the failing input. After [revived_room] the room ABCD has one
    player, B, who is not flagged as host, and the host of the room is
    still A, who is not among its players. *)
Theorem revived_room_has_no_host :
  ∃ s outs room,
    run initial revived_room = Some (s, outs) ∧
    JsMap.get (rooms s) "ABCD" = Some room ∧
    players room = [createPlayer "B" "bob" false] ∧
    host room = "A" ∧
    (∀ p, p ∈ players room → id p ≠ host room) ∧
    (∀ p, p ∈ players room → isHost p = false).
Proof.
  eexists _, _, _. split; [reflexivity|].
  split; [reflexivity|]. split; [reflexivity|]. split; [reflexivity|].
  split; intros p Hp; apply list_elem_of_singleton in Hp; by subst p.
Qed.

(** ** The cleanup timers *)

Lemma scheduleRoomCleanup_armed (c : string) (t : Timers) :
  roomTimers (scheduleRoomCleanup c t) !! c = Some (nextHandle t) ∧
  timeouts (scheduleRoomCleanup c t) !! nextHandle t
    = Some (c, (clock t + ROOM_TIMEOUT)%Z).
Proof.
  unfold scheduleRoomCleanup.
  destruct (roomTimers t !! c); simpl; by rewrite !lookup_insert_eq.
Qed.

Lemma scheduleRoomCleanup_clock (c : string) (t : Timers) :
  clock (scheduleRoomCleanup c t) = clock t.
Proof. unfold scheduleRoomCleanup. by destruct (roomTimers t !! c). Qed.

Lemma cancelRoomCleanup_clock (c : string) (t : Timers) :
  clock (cancelRoomCleanup c t) = clock t.
Proof. unfold cancelRoomCleanup. by destruct (roomTimers t !! c). Qed.

(** A timer armed after scheduling was armed before or is the new one. *)
Lemma scheduleRoomCleanup_origin (c : string) (t : Timers) (h : nat)
    (c' : string) (due : Z) :
  timeouts (scheduleRoomCleanup c t) !! h = Some (c', due) →
  timeouts t !! h = Some (c', due) ∨ due = (clock t + ROOM_TIMEOUT)%Z.
Proof.
  unfold scheduleRoomCleanup.
  destruct (roomTimers t !! c) as [h0|]; simpl;
    intros [[_ [= _ <-]]|[_ H]]%lookup_insert_Some; auto.
  apply lookup_delete_Some in H as [_ H]. auto.
Qed.

Lemma cancelRoomCleanup_origin (c : string) (t : Timers) (h : nat)
    (x : string * Z) :
  timeouts (cancelRoomCleanup c t) !! h = Some x → timeouts t !! h = Some x.
Proof.
  unfold cancelRoomCleanup. destruct (roomTimers t !! c) as [h0|]; simpl; [|done].
  by intros [_ H]%lookup_delete_Some.
Qed.

Lemma scheduleRoomCleanup_inv (c : string) (t : Timers) :
  timers_inv t → timers_inv (scheduleRoomCleanup c t).
Proof.
  intros [Hfresh Hreg Hdist]. unfold scheduleRoomCleanup.
  destruct (roomTimers t !! c) as [h0|] eqn:Hc; simpl; split; simpl.
  - intros c1 h [[_ <-]|[_ H]]%lookup_insert_Some; [lia|].
    apply Hfresh in H. lia.
  - intros h c1 due [[<- [= <- _]]|[Hne H]]%lookup_insert_Some.
    + by rewrite lookup_insert_eq.
    + apply lookup_delete_Some in H as [Hne0 H]. apply Hreg in H as Hr.
      rewrite lookup_insert_ne; [done|]. intros ->. congruence.
  - intros c1 c2 h [[<- <-]|[Hn1 H1]]%lookup_insert_Some
                   [[<- Hh]|[Hn2 H2]]%lookup_insert_Some; try done.
    + apply Hfresh in H2. lia.
    + apply Hfresh in H1. lia.
    + eauto.
  - intros c1 h [[_ <-]|[_ H]]%lookup_insert_Some; [lia|].
    apply Hfresh in H. lia.
  - intros h c1 due [[<- [= <- _]]|[Hne H]]%lookup_insert_Some.
    + by rewrite lookup_insert_eq.
    + apply Hreg in H as Hr.
      rewrite lookup_insert_ne; [done|]. intros ->. congruence.
  - intros c1 c2 h [[<- <-]|[Hn1 H1]]%lookup_insert_Some
                   [[<- Hh]|[Hn2 H2]]%lookup_insert_Some; try done.
    + apply Hfresh in H2. lia.
    + apply Hfresh in H1. lia.
    + eauto.
Qed.

Lemma cancelRoomCleanup_inv (c : string) (t : Timers) :
  timers_inv t → timers_inv (cancelRoomCleanup c t).
Proof.
  intros [Hfresh Hreg Hdist]. unfold cancelRoomCleanup.
  destruct (roomTimers t !! c) as [h0|] eqn:Hc; simpl; [|done].
  split; simpl.
  - intros c1 h [_ H]%lookup_delete_Some. eauto.
  - intros h c1 due [Hne H]%lookup_delete_Some. apply Hreg in H as Hr.
    rewrite lookup_delete_ne; [done|]. intros ->. congruence.
  - intros c1 c2 h [_ H1]%lookup_delete_Some [_ H2]%lookup_delete_Some. eauto.
Qed.

(** Cancelling leaves no armed timer for the room. *)
Lemma cancelRoomCleanup_clears (c : string) (t : Timers) :
  timers_inv t → no_cleanup_pending c (cancelRoomCleanup c t).
Proof.
  intros [Hfresh Hreg Hdist] h due. unfold cancelRoomCleanup.
  destruct (roomTimers t !! c) as [h0|] eqn:Hc; simpl.
  - intros [Hne H]%lookup_delete_Some. apply Hreg in H. congruence.
  - intros H. apply Hreg in H. congruence.
Qed.

(** Scheduling or cancelling for another room leaves the registration and
    the armed timer of [c] alone. *)
Lemma scheduleRoomCleanup_frame (c c2 : string) (t : Timers) (h : nat) :
  timers_inv t → c2 ≠ c → roomTimers t !! c = Some h →
  roomTimers (scheduleRoomCleanup c2 t) !! c = Some h ∧
  timeouts (scheduleRoomCleanup c2 t) !! h = timeouts t !! h.
Proof.
  intros [Hfresh Hreg Hdist] Hne Hc. pose proof (Hfresh _ _ Hc) as Hlt.
  unfold scheduleRoomCleanup.
  destruct (roomTimers t !! c2) as [h2|] eqn:Hc2; simpl.
  - rewrite !lookup_insert_ne by (done || lia). split; [done|].
    rewrite lookup_delete_ne; [done|]. intros ->. by apply Hne, (Hdist _ _ h).
  - rewrite !lookup_insert_ne by (done || lia). done.
Qed.

Lemma cancelRoomCleanup_frame (c c2 : string) (t : Timers) (h : nat) :
  timers_inv t → c2 ≠ c → roomTimers t !! c = Some h →
  roomTimers (cancelRoomCleanup c2 t) !! c = Some h ∧
  timeouts (cancelRoomCleanup c2 t) !! h = timeouts t !! h.
Proof.
  intros [Hfresh Hreg Hdist] Hne Hc. unfold cancelRoomCleanup.
  destruct (roomTimers t !! c2) as [h2|] eqn:Hc2; simpl; [|done].
  rewrite lookup_delete_ne by done. split; [done|].
  rewrite lookup_delete_ne; [done|]. intros ->. by apply Hne, (Hdist _ _ h).
Qed.

(** The timer that fires is disarmed; its callback may forget the
    registration of its room. *)
Lemma fired_inv (t : Timers) (h : nat) (c : string) (due : Z) :
  timers_inv t → timeouts t !! h = Some (c, due) →
  timers_inv (clearTimeout h t) ∧
  timers_inv (mkTimers (delete c (roomTimers t)) (delete h (timeouts t))
                       (nextHandle t) (clock t)).
Proof.
  intros [Hfresh Hreg Hdist] Hh. split; split; simpl.
  - done.
  - intros h' c' due' [_ H]%lookup_delete_Some. eauto.
  - done.
  - intros c1 h1 [_ H]%lookup_delete_Some. eauto.
  - intros h' c' due' [Hne H]%lookup_delete_Some. apply Hreg in H as Hr.
    rewrite lookup_delete_ne; [done|]. intros ->.
    apply Hreg in Hh. congruence.
  - intros c1 c2 h1 [_ H1]%lookup_delete_Some [_ H2]%lookup_delete_Some. eauto.
Qed.

(** ** [disconnect] and the timers *)

Lemma is_Some_get_keys {V} (m : list (string * V)) (k : string) :
  is_Some (JsMap.get m k) ↔ k ∈ m.*1.
Proof.
  split.
  - intros [v Hv]. by eapply get_Some_key.
  - intros Hk. destruct (JsMap.get m k) eqn:Hg; [done|].
    by apply get_None_key in Hg.
Qed.

Lemma keys_set_NoDup {V} (m : list (string * V)) (k : string) (v : V) :
  NoDup m.*1 → NoDup (JsMap.set m k v).*1.
Proof.
  intros Hm. destruct (JsMap.get m k) as [v0|] eqn:Hg.
  - by rewrite (keys_set_present _ _ _ _ Hg).
  - rewrite (keys_set_fresh _ _ _ Hg). apply NoDup_app. split_and!.
    + done.
    + intros x Hx ->%list_elem_of_singleton. by apply get_None_key in Hg.
    + apply NoDup_singleton.
Qed.

Lemma keys_delete_sublist {V} (m : list (string * V)) (k : string) :
  (JsMap.delete m k).*1 `sublist_of` m.*1.
Proof.
  induction m as [|[k' v'] m IH]; cbn [JsMap.delete]; [done|].
  rewrite fmap_cons. destruct (decide (k' = k)).
  - by apply sublist_cons.
  - rewrite fmap_cons. by apply sublist_skip.
Qed.

Lemma live_set (s : State) (c k : string) (r : Room) (t : Timers) :
  live c s → live c (mkState (JsMap.set (rooms s) k r) t).
Proof.
  unfold live. simpl. intros H. destruct (decide (k = c)) as [->|Hne].
  - by rewrite get_set_eq.
  - by rewrite get_set_ne.
Qed.

Section disconnect.

Context (socketId : string).

Lemma disconnect_room_clock (c : string) (room : Room) (t : Timers) :
  clock (disconnect_room socketId c room t).1.2 = clock t.
Proof.
  unfold disconnect_room. destruct (list_find _ _) as [[i player]|]; [|done].
  destruct (delete i (players room)); simpl.
  - apply scheduleRoomCleanup_clock.
  - destruct (isHost player); apply cancelRoomCleanup_clock.
Qed.

Lemma disconnect_room_inv (c : string) (room : Room) (t : Timers) :
  timers_inv t → timers_inv (disconnect_room socketId c room t).1.2.
Proof.
  intros Ht. unfold disconnect_room.
  destruct (list_find _ _) as [[i player]|]; [|done].
  destruct (delete i (players room)); simpl.
  - by apply scheduleRoomCleanup_inv.
  - destruct (isHost player); by apply cancelRoomCleanup_inv.
Qed.

Lemma disconnect_room_origin (c : string) (room : Room) (t : Timers)
    (h : nat) (c' : string) (due : Z) :
  timeouts (disconnect_room socketId c room t).1.2 !! h = Some (c', due) →
  timeouts t !! h = Some (c', due) ∨ due = (clock t + ROOM_TIMEOUT)%Z.
Proof.
  unfold disconnect_room. destruct (list_find _ _) as [[i player]|]; [|auto].
  destruct (delete i (players room)); simpl.
  - apply scheduleRoomCleanup_origin.
  - destruct (isHost player); simpl; intros H;
      left; by eapply cancelRoomCleanup_origin.
Qed.

Lemma disconnect_room_frame (c c2 : string) (room : Room) (t : Timers)
    (h : nat) :
  timers_inv t → c2 ≠ c → roomTimers t !! c = Some h →
  roomTimers (disconnect_room socketId c2 room t).1.2 !! c = Some h ∧
  timeouts (disconnect_room socketId c2 room t).1.2 !! h = timeouts t !! h.
Proof.
  intros Ht Hne Hc. unfold disconnect_room.
  destruct (list_find _ _) as [[i player]|]; [|done].
  destruct (delete i (players room)); simpl.
  - by apply scheduleRoomCleanup_frame.
  - destruct (isHost player); by apply cancelRoomCleanup_frame.
Qed.

(** The last player of a room leaves. *)
Lemma disconnect_room_last (c : string) (room : Room) (t : Timers)
    (p : Player) :
  players room = [p] → id p = socketId →
  disconnect_room socketId c room t
    = (set_players [] room, scheduleRoomCleanup c t, []).
Proof.
  intros Hps Hid. unfold disconnect_room. rewrite Hps. simpl.
  by rewrite decide_True.
Qed.

Lemma disconnect_each_keys (entries : list (string * Room)) (t : Timers) :
  (disconnect_each socketId entries t).1.1.*1 = entries.*1.
Proof.
  revert t. induction entries as [|[c room] entries IH]; intros t; [done|].
  simpl. destruct (disconnect_room socketId c room t) as [[room' t1] out1].
  specialize (IH t1).
  destruct (disconnect_each socketId entries t1) as [[rest t2] out2].
  simpl in *. by f_equal.
Qed.

Lemma disconnect_each_clock (entries : list (string * Room)) (t : Timers) :
  clock (disconnect_each socketId entries t).1.2 = clock t.
Proof.
  revert t. induction entries as [|[c room] entries IH]; intros t; [done|].
  simpl. pose proof (disconnect_room_clock c room t) as H1.
  destruct (disconnect_room socketId c room t) as [[room' t1] out1].
  specialize (IH t1).
  destruct (disconnect_each socketId entries t1) as [[rest t2] out2].
  simpl in *. congruence.
Qed.

Lemma disconnect_each_inv (entries : list (string * Room)) (t : Timers) :
  timers_inv t → timers_inv (disconnect_each socketId entries t).1.2.
Proof.
  revert t. induction entries as [|[c room] entries IH]; intros t Ht; [done|].
  simpl. pose proof (disconnect_room_inv c room t Ht) as H1.
  destruct (disconnect_room socketId c room t) as [[room' t1] out1].
  specialize (IH t1 H1).
  by destruct (disconnect_each socketId entries t1) as [[rest t2] out2].
Qed.

Lemma disconnect_each_origin (entries : list (string * Room)) (t : Timers)
    (h : nat) (c' : string) (due : Z) :
  timeouts (disconnect_each socketId entries t).1.2 !! h = Some (c', due) →
  timeouts t !! h = Some (c', due) ∨ due = (clock t + ROOM_TIMEOUT)%Z.
Proof.
  revert t. induction entries as [|[c room] entries IH]; intros t; [by left|].
  simpl. pose proof (disconnect_room_origin c room t h c' due) as H1.
  pose proof (disconnect_room_clock c room t) as Hc.
  destruct (disconnect_room socketId c room t) as [[room' t1] out1].
  specialize (IH t1).
  destruct (disconnect_each socketId entries t1) as [[rest t2] out2].
  simpl in *. intros H. destruct (IH H) as [H'|H']; [auto|].
  right. congruence.
Qed.

Lemma disconnect_each_frame (entries : list (string * Room)) (t : Timers)
    (c : string) (h : nat) :
  c ∉ entries.*1 → timers_inv t → roomTimers t !! c = Some h →
  roomTimers (disconnect_each socketId entries t).1.2 !! c = Some h ∧
  timeouts (disconnect_each socketId entries t).1.2 !! h = timeouts t !! h.
Proof.
  revert t. induction entries as [|[c2 room] entries IH];
    intros t Hnin Ht Hc; [done|].
  rewrite fmap_cons in Hnin. apply not_elem_of_cons in Hnin as [Hne Hnin].
  simpl in Hne. simpl.
  pose proof (disconnect_room_inv c2 room t Ht) as H1.
  destruct (disconnect_room_frame c c2 room t h Ht) as [Hr Hto]; [done..|].
  destruct (disconnect_room socketId c2 room t) as [[room' t1] out1].
  specialize (IH t1 Hnin H1 Hr).
  destruct (disconnect_each socketId entries t1) as [[rest t2] out2].
  simpl in *. destruct IH as [IH1 IH2]. split; congruence.
Qed.

Lemma disconnect_each_last (entries : list (string * Room)) (t : Timers)
    (c : string) (room : Room) (p : Player) :
  NoDup entries.*1 → timers_inv t →
  JsMap.get entries c = Some room →
  players room = [p] → id p = socketId →
  ∃ h,
    JsMap.get (disconnect_each socketId entries t).1.1 c
      = Some (set_players [] room) ∧
    roomTimers (disconnect_each socketId entries t).1.2 !! c = Some h ∧
    timeouts (disconnect_each socketId entries t).1.2 !! h
      = Some (c, (clock t + ROOM_TIMEOUT)%Z).
Proof.
  revert t. induction entries as [|[c0 r0] entries IH];
    intros t Hnd Ht Hget Hps Hid; [done|].
  rewrite fmap_cons in Hnd. apply NoDup_cons in Hnd as [Hnin Hnd].
  simpl in Hnin, Hget. cbn [disconnect_each].
  destruct (decide (c0 = c)) as [->|Hne].
  - injection Hget as ->.
    rewrite (disconnect_room_last c room t p Hps Hid).
    destruct (scheduleRoomCleanup_armed c t) as [Hr Hto].
    destruct (disconnect_each_frame entries (scheduleRoomCleanup c t) c
                (nextHandle t) Hnin (scheduleRoomCleanup_inv c t Ht) Hr)
      as [Hr' Hto'].
    destruct (disconnect_each socketId entries _) as [[rest t2] out2].
    simpl in *. exists (nextHandle t). rewrite decide_True by done.
    split; [done|]. split; [done|]. congruence.
  - pose proof (disconnect_room_inv c0 r0 t Ht) as H1.
    pose proof (disconnect_room_clock c0 r0 t) as Hc.
    destruct (disconnect_room socketId c0 r0 t) as [[room' t1] out1].
    destruct (IH t1 Hnd H1 Hget Hps Hid) as (h & Hg & Hr & Hto).
    destruct (disconnect_each socketId entries t1) as [[rest t2] out2].
    simpl in *. exists h. rewrite decide_False by done.
    split; [done|]. split; [done|]. congruence.
Qed.

End disconnect.

(** ** One turn of the event loop *)

(** A handler other than [disconnect] leaves the registry as it was or
    sets one entry, and leaves the timers as they were or cancels the
    cleanup of one room. *)
Lemma handle_shape (socketId : string) (e : ClientEvent) (s s' : State)
    (o : list Emission) :
  e ≠ Disconnect →
  handle socketId e s = Some (s', o) →
  (rooms s' = rooms s ∨ ∃ c r, rooms s' = JsMap.set (rooms s) c r) ∧
  (timers s' = timers s ∨ ∃ c, timers s' = cancelRoomCleanup c (timers s)).
Proof.
  intros Hnd.
  assert (∀ c r t,
    (JsMap.set (rooms s) c r = rooms s ∨
     ∃ c0 r0, JsMap.set (rooms s) c r = JsMap.set (rooms s) c0 r0) ∧
    (t = t ∨ ∃ c0, t = cancelRoomCleanup c0 t)) as Hset
    by (intros; split; [right; by eexists _, _|by left]).
  assert (∀ (m : list (string * Room)) (t : Timers),
    (m = m ∨ ∃ c r, m = JsMap.set m c r) ∧
    (t = t ∨ ∃ c, t = cancelRoomCleanup c t)) as Hsame
    by (intros; split; by left).
  destruct e as [name random|roomCode name|roomCode shuffle|roomCode index
                 |roomCode shuffle|roomCode|roomCode|]; simpl; [..|done].
  - unfold on_create_room.
    destruct (generateRoomCode _ _) as [c|]; [|done].
    intros [= <- _]. apply Hset.
  - unfold on_join_room.
    destruct (JsMap.get _ _) as [room|]; [|intros [= <- _]; apply Hsame].
    destruct (gameStarted room); intros [= <- _]; simpl.
    + split; [by left|right; by eexists].
    + split; [right; by eexists _, _|right; by eexists].
  - unfold on_start_game.
    destruct (JsMap.get _ _) as [room|]; [|intros [= <- _]; apply Hsame].
    case_decide; intros [= <- _]; [apply Hsame|apply Hset].
  - unfold on_mark_square.
    destruct (JsMap.get _ _) as [room|]; [|intros [= <- _]; apply Hsame].
    destruct (list_find _ _) as [[k player]|]; intros [= <- _];
      [apply Hset|apply Hsame].
  - unfold on_new_round.
    destruct (JsMap.get _ _) as [room|]; [|intros [= <- _]; apply Hsame].
    case_decide; intros [= <- _]; [apply Hsame|apply Hset].
  - unfold on_continue_to_blackout.
    destruct (JsMap.get _ _) as [room|]; [|intros [= <- _]; apply Hsame].
    case_decide; intros [= <- _]; [apply Hsame|apply Hset].
  - unfold on_finish_game.
    destruct (JsMap.get _ _) as [room|]; [|intros [= <- _]; apply Hsame].
    case_decide; [intros [= <- _]; apply Hsame|].
    destruct (players room); [done|].
    destruct (scan_winner _ _). intros [= <- _]. apply Hsame.
Qed.

Lemma disconnect_or_not (e : ClientEvent) : e = Disconnect ∨ e ≠ Disconnect.
Proof. destruct e; (by left) || (by right). Qed.

Lemma step_inv (s : State) (i : Input) (s' : State) (o : list Emission) :
  state_inv s → step s i = Some (s', o) → state_inv s'.
Proof.
  intros [Hnd Ht]. destruct i as [socketId e|h|dt]; simpl.
  - destruct (disconnect_or_not e) as [->|Hne].
    + simpl. unfold on_disconnect.
      pose proof (disconnect_each_keys socketId (rooms s) (timers s)) as Hk.
      pose proof (disconnect_each_inv socketId (rooms s) (timers s) Ht) as Hi.
      destruct (disconnect_each _ _ _) as [[rooms' t] out].
      intros [= <- _]. split; simpl in *; [by rewrite Hk|done].
    + intros H. destruct (handle_shape _ _ _ _ _ Hne H) as [Hr Htm]. split.
      * destruct Hr as [->|(c & r & ->)]; [done|by apply keys_set_NoDup].
      * destruct Htm as [->|[c ->]]; [done|by apply cancelRoomCleanup_inv].
  - destruct (timeouts _ !! h) as [[roomCode due]|] eqn:Hh; [|done].
    case_decide; [|done]. intros [= <- _].
    destruct (fired_inv _ _ _ _ Ht Hh) as [Hclear Hforget].
    unfold cleanupCallback. simpl.
    destruct (JsMap.get _ _) as [room|]; [|by split].
    destruct (players room); [|by split]. split; simpl; [|done].
    eapply sublist_NoDup; [exact Hnd|apply keys_delete_sublist].
  - case_decide; [|done]. intros [= <- _]. split; [done|].
    destruct Ht as [Hfresh Hreg Hdist]. by split.
Qed.

Lemma reachable_inv (s : State) : reachable s → state_inv s.
Proof.
  intros (inputs & outs & Hrun).
  eapply (run_invariant state_inv (fun _ => True)); [| |apply Forall_true|exact Hrun].
  - intros ? ? ? ? Hs _. by apply step_inv.
  - split; [apply NoDup_nil_2|]. by split.
  - done.
Qed.

Lemma step_clock (s : State) (i : Input) (s' : State) (o : list Emission) :
  step s i = Some (s', o) → (clock (timers s) ≤ clock (timers s'))%Z.
Proof.
  destruct i as [socketId e|h|dt]; simpl.
  - destruct (disconnect_or_not e) as [->|Hne].
    + simpl. unfold on_disconnect.
      pose proof (disconnect_each_clock socketId (rooms s) (timers s)) as Hc.
      destruct (disconnect_each _ _ _) as [[rooms' t] out].
      intros [= <- _]. simpl in *. lia.
    + intros H. destruct (handle_shape _ _ _ _ _ Hne H) as [_ [->|[c ->]]];
        [done|]. by rewrite cancelRoomCleanup_clock.
  - destruct (timeouts _ !! h) as [[roomCode due]|]; [|done].
    case_decide; [|done]. intros [= <- _]. unfold cleanupCallback. simpl.
    destruct (JsMap.get _ _) as [room|]; [|done].
    by destruct (players room).
  - case_decide; [|done]. intros [= <- _]. simpl. lia.
Qed.

Lemma run_clock (inputs : list Input) (s s' : State)
    (outs : list (list Emission)) :
  run s inputs = Some (s', outs) → (clock (timers s) ≤ clock (timers s'))%Z.
Proof.
  revert s outs. induction inputs as [|i inputs IH]; intros s outs; simpl.
  - by intros [= <- _].
  - destruct (step s i) as [[s1 o]|] eqn:Hs; [|done].
    destruct (run s1 inputs) as [[s2 os]|] eqn:Hr; [|done].
    intros [= <- _]. apply step_clock in Hs. apply IH in Hr. lia.
Qed.

(** An armed timer was armed before the turn, or the turn armed it with
    the full delay. *)
Lemma step_origin (s : State) (i : Input) (s' : State) (o : list Emission)
    (h : nat) (c : string) (due : Z) :
  step s i = Some (s', o) →
  timeouts (timers s') !! h = Some (c, due) →
  timeouts (timers s) !! h = Some (c, due) ∨
  (is_disconnect i ∧ due = (clock (timers s) + ROOM_TIMEOUT)%Z).
Proof.
  destruct i as [socketId e|h0|dt]; simpl.
  - destruct (disconnect_or_not e) as [->|Hne].
    + simpl. unfold on_disconnect.
      pose proof (disconnect_each_origin socketId (rooms s) (timers s)
                    h c due) as Ho.
      destruct (disconnect_each _ _ _) as [[rooms' t] out].
      intros [= <- _] H. simpl in *. destruct (Ho H); auto.
    + intros H. destruct (handle_shape _ _ _ _ _ Hne H) as [_ [->|[c0 ->]]];
        [auto|]. intros H'. left. by eapply cancelRoomCleanup_origin.
  - destruct (timeouts _ !! h0) as [[roomCode due0]|]; [|done].
    case_decide; [|done]. intros [= <- _]. unfold cleanupCallback. simpl.
    destruct (JsMap.get _ _) as [room|]; simpl;
      [destruct (players room); simpl|];
      intros [_ H']%lookup_delete_Some; auto.
  - case_decide; [|done]. intros [= <- _]. simpl. auto.
Qed.

(** A room leaves the registry only when a timer armed for it fires. *)
Lemma step_live (s : State) (i : Input) (s' : State) (o : list Emission)
    (c : string) :
  live c s → step s i = Some (s', o) →
  live c s' ∨
  ∃ h due, i = TimerFires h ∧ timeouts (timers s) !! h = Some (c, due) ∧
           (due ≤ clock (timers s))%Z.
Proof.
  intros Hlive. destruct i as [socketId e|h|dt]; simpl.
  - intros H. left. destruct (disconnect_or_not e) as [->|Hne].
    + revert H. simpl. unfold on_disconnect.
      pose proof (disconnect_each_keys socketId (rooms s) (timers s)) as Hk.
      destruct (disconnect_each _ _ _) as [[rooms' t] out].
      intros [= <- _]. unfold live in *. simpl in *.
      apply is_Some_get_keys. rewrite Hk. by apply is_Some_get_keys.
    + destruct (handle_shape _ _ _ _ _ Hne H) as [[Hr|(c0 & r & Hr)] _];
        unfold live in *; rewrite Hr; [done|].
      destruct (decide (c0 = c)) as [->|Hne'].
      * by rewrite get_set_eq.
      * by rewrite get_set_ne.
  - destruct (timeouts _ !! h) as [[roomCode due]|] eqn:Hh; [|done].
    case_decide; [|done]. intros [= <- _].
    destruct (decide (roomCode = c)) as [->|Hne]; [right; eauto|].
    left. unfold cleanupCallback, live in *. simpl.
    destruct (JsMap.get (rooms s) roomCode) as [room|]; [|done].
    destruct (players room); [|done]. simpl. by rewrite get_delete_ne.
  - case_decide; [|done]. intros [= <- _]. by left.
Qed.

(** ** Idle expiry *)

Lemma step_awaiting (c : string) (D : Z) (s : State) (i : Input)
    (s' : State) (o : list Emission) :
  awaiting_cleanup c D s → (clock (timers s) < D)%Z →
  step s i = Some (s', o) → awaiting_cleanup c D s'.
Proof.
  intros (Hlive & Hdue & Hclock) Hlt Hstep. split_and!.
  - destruct (step_live _ _ _ _ c Hlive Hstep) as [H|(h & due & _ & Hh & Hle)];
      [done|]. apply Hdue in Hh. lia.
  - intros h due Hh.
    destruct (step_origin _ _ _ _ _ _ _ Hstep Hh) as [H|[_ ->]]; [eauto|done].
  - apply step_clock in Hstep. lia.
Qed.

Lemma run_awaiting (c : string) (D : Z) (inputs : list Input) (s s' : State)
    (outs : list (list Emission)) :
  awaiting_cleanup c D s → run s inputs = Some (s', outs) →
  (clock (timers s') < D)%Z → awaiting_cleanup c D s'.
Proof.
  revert s outs. induction inputs as [|i inputs IH]; intros s outs Hs; simpl.
  - by intros [= <- _].
  - destruct (step s i) as [[s1 o]|] eqn:Hstep; [|done].
    destruct (run s1 inputs) as [[s2 os]|] eqn:Hr; [|done].
    intros [= <- _] Hlt. apply (IH s1 os); [|done|done].
    apply (step_awaiting c D s i s1 o); [done| |done].
    apply step_clock in Hstep. apply run_clock in Hr. lia.
Qed.

Lemma step_not_pending (c : string) (s : State) (i : Input) (s' : State)
    (o : list Emission) :
  live c s ∧ no_cleanup_pending c (timers s) → ¬ is_disconnect i →
  step s i = Some (s', o) →
  live c s' ∧ no_cleanup_pending c (timers s').
Proof.
  intros [Hlive Hno] Hnd Hstep. split.
  - destruct (step_live _ _ _ _ c Hlive Hstep) as [H|(h & due & _ & Hh & _)];
      [done|]. by apply Hno in Hh.
  - intros h due Hh.
    destruct (step_origin _ _ _ _ _ _ _ Hstep Hh) as [H|[Hd _]]; [|done].
    by apply Hno in H.
Qed.

Lemma cleanupCallback_other (c roomCode : string) (s : State) :
  roomCode ≠ c →
  JsMap.get (rooms (cleanupCallback roomCode s)) c = JsMap.get (rooms s) c.
Proof.
  intros Hne. unfold cleanupCallback.
  destruct (JsMap.get (rooms s) roomCode) as [room|]; [|done].
  destruct (players room); [|done]. simpl. by rewrite get_delete_ne.
Qed.

Lemma cleanupCallback_same (c : string) (s : State) (room : Room) :
  JsMap.get (rooms s) c = Some room →
  JsMap.get (rooms (cleanupCallback c s)) c =
    match players room with [] => None | _ :: _ => Some room end.
Proof.
  intros Hget. unfold cleanupCallback. rewrite Hget.
  destruct (players room); simpl; [|done]. by rewrite get_delete_eq.
Qed.

(** C9. Idle expiry of a live room of a reachable state.
    - When its last player disconnects, the room stays in the registry,
      now empty, and a timer due in 30 minutes is armed and registered for
      it; whatever happens next, the room is still in the registry as long
      as the clock has not reached that time.
    - When a timer fires, the room leaves the registry iff the timer is one
      armed for this room and the room is empty at that moment; otherwise
      the room is untouched.
    - A [join-room] for the room, under any spelling of its code, leaves no
      armed timer for it, and the room stays in the registry through every
      later sequence of turns that contains no disconnect. *)
Theorem idle_expiry (s : State) (c : string) (room : Room) :
  reachable s →
  JsMap.get (rooms s) c = Some room →
  (∀ socketId p,
     players room = [p] → id p = socketId →
     ∃ s1 out h,
       step s (FromSocket socketId Disconnect) = Some (s1, out) ∧
       JsMap.get (rooms s1) c = Some (set_players [] room) ∧
       roomTimers (timers s1) !! c = Some h ∧
       timeouts (timers s1) !! h
         = Some (c, (clock (timers s) + ROOM_TIMEOUT)%Z) ∧
       ∀ inputs s2 outs,
         run s1 inputs = Some (s2, outs) →
         (clock (timers s2) < clock (timers s) + ROOM_TIMEOUT)%Z →
         live c s2) ∧
  (∀ h s1 out,
     step s (TimerFires h) = Some (s1, out) →
     (JsMap.get (rooms s1) c = None ↔
        players room = [] ∧ ∃ due, timeouts (timers s) !! h = Some (c, due)) ∧
     (JsMap.get (rooms s1) c = None ∨ JsMap.get (rooms s1) c = Some room)) ∧
  (∀ socketId spelled name,
     toUpperCase spelled = c →
     ∃ s1 out,
       step s (FromSocket socketId (JoinRoom spelled name)) = Some (s1, out) ∧
       live c s1 ∧
       no_cleanup_pending c (timers s1) ∧
       ∀ inputs s2 outs,
         run s1 inputs = Some (s2, outs) →
         Forall (fun i => ¬ is_disconnect i) inputs →
         live c s2).
Proof.
  intros Hreach Hget. pose proof (reachable_inv s Hreach) as [Hnd Ht].
  split_and!.
  - intros socketId p Hps Hid.
    destruct (step s (FromSocket socketId Disconnect)) as [[s1 out]|] eqn:Hstep;
      [|done].
    pose proof (step_inv _ _ _ _ (conj Hnd Ht) Hstep) as [_ Ht1].
    pose proof (step_clock _ _ _ _ Hstep) as Hclock.
    pose proof Hstep as Hstep'. simpl in Hstep'. unfold on_disconnect in Hstep'.
    destruct (disconnect_each_last socketId (rooms s) (timers s) c room p
                Hnd Ht Hget Hps Hid) as (h & Hg & Hr & Hto).
    pose proof (disconnect_each_clock socketId (rooms s) (timers s)) as Hck.
    destruct (disconnect_each _ _ _) as [[rooms' t] o'].
    injection Hstep' as <- <-. simpl in *.
    exists (mkState rooms' t), o', h. split_and!; try done.
    intros inputs s2 outs Hrun Hlt.
    eapply (run_awaiting c (clock (timers s) + ROOM_TIMEOUT)%Z);
      [|exact Hrun|exact Hlt].
    split_and!; simpl.
    + unfold live. simpl. by rewrite Hg.
    + intros h' due Hh'. pose proof (armed_registered _ Ht1 _ _ _ Hh') as Hr'.
      simpl in Hr'. rewrite Hr in Hr'. injection Hr' as <-.
      rewrite Hto in Hh'. injection Hh' as <-. lia.
    + rewrite Hck. lia.
  - intros h s1 out. simpl.
    destruct (timeouts _ !! h) as [[roomCode due]|] eqn:Hh; [|done].
    case_decide; [|done]. intros [= <- _].
    destruct (decide (roomCode = c)) as [->|Hne].
    + rewrite (cleanupCallback_same c _ room) by done.
      destruct (players room) as [|p ps]; simpl.
      * split; [|by left]. split; [eauto|done].
      * split; [|by right]. split; [done|by intros [? _]].
    + rewrite cleanupCallback_other by done. simpl. rewrite Hget.
      split; [|by right]. split; [done|]. intros [_ [due' [= ? _]]]. done.
  - intros socketId spelled name Hup.
    assert (∃ rooms' out,
      step s (FromSocket socketId (JoinRoom spelled name))
        = Some (mkState rooms' (cancelRoomCleanup c (timers s)), out) ∧
      is_Some (JsMap.get rooms' c)) as (rooms' & out & Hstep & Hlive).
    { simpl. unfold on_join_room. rewrite Hup, Hget.
      destruct (gameStarted room); eexists _, _; (split; [reflexivity|]).
      - by rewrite Hget.
      - by rewrite get_set_eq. }
    eexists _, _. split; [exact Hstep|].
    assert (no_cleanup_pending c (cancelRoomCleanup c (timers s))) as Hno
      by (by apply cancelRoomCleanup_clears).
    split; [done|]. split; [done|].
    intros inputs s2 outs Hrun Hquiet.
    eapply (run_invariant
              (fun x => live c x ∧ no_cleanup_pending c (timers x))
              (fun i => ¬ is_disconnect i)); [| |exact Hquiet|exact Hrun].
    + intros x i x' o Hx Hi Hs. by apply (step_not_pending c x i x' o).
    + by split.
Qed.

Lemma idle_expiry_witness :
  ∃ s1 out h,
    step (mkState [("ABCD", mkRoom "ABCD" "A" [createPlayer "A" "ann" true]
                                   false regular)]
                  (timers initial))
         (FromSocket "A" Disconnect) = Some (s1, out) ∧
    roomTimers (timers s1) !! "ABCD" = Some h ∧
    timeouts (timers s1) !! h = Some ("ABCD", ROOM_TIMEOUT).
Proof.
  destruct (idle_expiry
              (mkState [("ABCD", mkRoom "ABCD" "A"
                                   [createPlayer "A" "ann" true]
                                   false regular)]
                       (timers initial))
              "ABCD" _
              (ex_intro _ [FromSocket "A" (CreateRoom "ann" [0; 1; 2; 3])]
                 (ex_intro _ _ eq_refl))
              eq_refl) as (Hlast & _ & _).
  destruct (Hlast "A" _ eq_refl eq_refl) as (s1 & out & h & H1 & _ & H2 & H3 & _).
  exists s1, out, h. split; [exact H1|]. split; [exact H2 | exact H3].
Defined.

(** ** Host validity on the other paths

    Every turn of the event loop other than a [join-room] into an empty
    room keeps every room host-valid. *)









(** * Further properties *)

(** ** Room codes *)

Lemma charAt_letter (k : nat) :
  k < 26 →
  ∃ ch, charAt chars k = String ch EmptyString ∧ is_upper_letter ch = true.
Proof.
  intros Hk.
  do 26 (destruct k as [|k]; [by eexists|]). lia.
Qed.

Lemma upper_letter_fixed (c : ascii) :
  is_upper_letter c = true → upper_ascii c = c.
Proof. by destruct c as [[] [] [] [] [] [] [] []]. Qed.

Lemma room_code_fixed (s : string) :
  is_room_code s = true → toUpperCase s = s.
Proof.
  destruct s as [|a [|b [|c [|d [|? ?]]]]]; try done. simpl.
  intros [[[Ha Hb]%andb_true_iff Hc]%andb_true_iff Hd]%andb_true_iff.
  by rewrite !upper_letter_fixed.
Qed.

Lemma generateRoomCode_fresh (rooms : list (string * Room))
    (random : list nat) (c : string) :
  generateRoomCode rooms random = Some c → JsMap.get rooms c = None.
Proof.
  remember (length random) as n eqn:Hn. revert random Hn.
  induction (lt_wf n) as [n _ IH]. intros random -> .
  destruct random as [|a [|b [|c0 [|d rest]]]]; try done.
  cbn [generateRoomCode]. unfold JsMap.has.
  set (code := charAt chars a +:+ _).
  destruct (JsMap.get rooms code) eqn:Hget.
  - apply (IH (length rest)); [simpl; lia|done].
  - by intros [= <-].
Qed.

Lemma generateRoomCode_format (rooms : list (string * Room))
    (random : list nat) (c : string) :
  Forall (fun k => k < 26) random →
  generateRoomCode rooms random = Some c → is_room_code c = true.
Proof.
  remember (length random) as n eqn:Hn. revert random Hn.
  induction (lt_wf n) as [n _ IH]. intros random -> Hall.
  destruct random as [|a [|b [|c0 [|d rest]]]]; try done.
  cbn [generateRoomCode].
  apply Forall_cons in Hall as [Ha Hall]. apply Forall_cons in Hall as [Hb Hall].
  apply Forall_cons in Hall as [Hc Hall]. apply Forall_cons in Hall as [Hd Hall].
  destruct (JsMap.has rooms _).
  - apply (IH (length rest)); [simpl; lia|done|done].
  - intros [= <-].
    destruct (charAt_letter a Ha) as (x1 & -> & H1).
    destruct (charAt_letter b Hb) as (x2 & -> & H2).
    destruct (charAt_letter c0 Hc) as (x3 & -> & H3).
    destruct (charAt_letter d Hd) as (x4 & -> & H4).
    simpl. by rewrite H1, H2, H3, H4.
Qed.

(** X1. A code returned by [generateRoomCode] is not the key of any room in
    the registry; when the random values are letter positions (below 26) it
    is four letters A to Z, hence unchanged by the upper-casing that
    [join-room] applies. *)
Theorem generateRoomCode_code (rooms : list (string * Room))
    (random : list nat) (c : string) :
  Forall (fun k => k < 26) random →
  generateRoomCode rooms random = Some c →
  JsMap.has rooms c = false ∧ is_room_code c = true ∧ toUpperCase c = c.
Proof.
  intros Hall Hgen.
  pose proof (generateRoomCode_fresh _ _ _ Hgen) as Hfresh.
  pose proof (generateRoomCode_format _ _ _ Hall Hgen) as Hfmt.
  split_and!; [|done|by apply room_code_fixed].
  unfold JsMap.has. by rewrite Hfresh.
Qed.

Lemma generateRoomCode_code_witness :
  JsMap.has [("ABCD", mkRoom "ABCD" "A" [] false regular)] "ZYXW" = false ∧
  is_room_code "ZYXW" = true ∧ toUpperCase "ZYXW" = "ZYXW".
Proof.
  apply (generateRoomCode_code
           [("ABCD", mkRoom "ABCD" "A" [] false regular)]
           [0; 1; 2; 3; 25; 24; 23; 22] "ZYXW").
  - repeat (apply Forall_cons; split; [lia|]). apply Forall_nil_2.
  - reflexivity.
Defined.

(** ** More on the win evaluator and the cards *)

(** X2. On 25-entry boolean vectors the win test is monotone: if [v']
    marks every cell [v] marks and [v] wins in a mode, so does [v']; and a
    blackout win is also a regular win. *)
Theorem hasWon_monotone (a a' : Js.array) (v v' : list bool)
    (mode : GameMode) :
  length v = 25 → length v' = 25 →
  Js.elems a = Some <$> v → Js.elems a' = Some <$> v' →
  marks_more v v' →
  (hasWon mode a = true → hasWon mode a' = true) ∧
  (hasWon blackout a = true → hasWon regular a = true).
Proof.
  intros Hl Hl' He He' Hmore. split.
  - destruct mode; simpl.
    + rewrite (checkWin_lines a v Hl He), (checkWin_lines a' v' Hl' He').
      rewrite !existsb_exists. intros (line & Hin & Hline). exists line.
      split; [done|]. apply line_marked_spec. intros k Hk.
      apply Hmore. revert k Hk. by apply line_marked_spec.
    + rewrite (every_of_bools a v He), (every_of_bools a' v' He').
      intros Hall k b Hk.
      destruct (lookup_lt_is_Some_2 v k) as [b0 Hb0];
        [apply lookup_lt_Some in Hk; lia|].
      rewrite (Hall _ _ Hb0) in Hb0. apply Hmore in Hb0. congruence.
  - simpl. rewrite (every_of_bools a v He), (checkWin_lines a v Hl He).
    intros Hall. apply existsb_exists. exists [0; 6; 12; 18; 24].
    split; [vm_compute; tauto|]. apply line_marked_spec. intros k Hk.
    destruct (lookup_lt_is_Some_2 v k) as [b Hb].
    + rewrite Hl. apply list_elem_of_In in Hk. simpl in Hk.
      destruct Hk as [<-|[<-|[<-|[<-|[<-|[]]]]]]; lia.
    + by rewrite (Hall _ _ Hb) in Hb.
Qed.

Lemma hasWon_monotone_witness :
  hasWon regular (Js.of_bools (replicate 25 true)) = true.
Proof.
  refine (proj1 (hasWon_monotone
                   (Js.of_bools (replicate 5 true ++ replicate 20 false))
                   (Js.of_bools (replicate 25 true))
                   (replicate 5 true ++ replicate 20 false)
                   (replicate 25 true) regular
                   eq_refl eq_refl eq_refl eq_refl _) eq_refl).
  intros k Hk. apply lookup_replicate_2.
  apply lookup_lt_Some in Hk. simpl in Hk. exact Hk.
Defined.

(** X3. With the phrase pool of the server, the 25 cells of a generated
    card are pairwise distinct: FREE SPACE occurs at the centre only and no
    phrase occurs twice, whatever the random sort returns. *)
Theorem generateBingoCard_NoDup (shuffled : list string) :
  CLICHES ≡ₚ shuffled → NoDup (generateBingoCard shuffled).
Proof.
  intros Hperm. unfold generateBingoCard, splice_in.
  destruct CLICHES_pool as [Hnd Hlen].
  assert (NoDup ("FREE SPACE" :: take 24 shuffled)) as H.
  { apply NoDup_cons. split.
    - intros Hin. apply (drawn_from_pool CLICHES shuffled Hperm) in Hin.
      revert Hin. apply (bool_decide_unpack ("FREE SPACE" ∉ CLICHES)).
      vm_compute. exact I.
    - by apply (drawn_NoDup CLICHES shuffled). }
  revert H. rewrite <- (take_drop 12 (take 24 shuffled)) at 1.
  by rewrite Permutation_middle.
Qed.

Lemma generateBingoCard_NoDup_witness :
  NoDup (generateBingoCard (reverse CLICHES)).
Proof.
  apply generateBingoCard_NoDup. symmetry. apply reverse_Permutation.
Defined.

(** ** More on the registry *)

Lemma set_length_fresh {V} (m : list (string * V)) (k : string) (v : V) :
  JsMap.get m k = None → length (JsMap.set m k v) = S (length m).
Proof.
  intros H. rewrite <- !(length_fmap fst), (keys_set_fresh _ _ _ H).
  rewrite length_app. simpl. lia.
Qed.

Lemma set_length_present {V} (m : list (string * V)) (k : string) (v v0 : V) :
  JsMap.get m k = Some v0 → length (JsMap.set m k v) = length m.
Proof.
  intros H. by rewrite <- !(length_fmap fst), (keys_set_present _ _ _ _ H).
Qed.

Lemma set_id {V} (m : list (string * V)) (k : string) (v : V) :
  JsMap.get m k = Some v → JsMap.set m k v = m.
Proof.
  induction m as [|[k' v'] m IH]; simpl; [done|].
  destruct (decide (k' = k)) as [->|]; [by intros [= ->]|].
  intros H. by rewrite IH.
Qed.

Lemma set_set {V} (m : list (string * V)) (k : string) (v v' : V) :
  JsMap.set (JsMap.set m k v') k v = JsMap.set m k v.
Proof.
  induction m as [|[k0 v0] m IH]; simpl.
  - by rewrite decide_True.
  - destruct (decide (k0 = k)) as [->|]; simpl.
    + by rewrite decide_True.
    + rewrite decide_False by done. by rewrite IH.
Qed.

(** ** [create-room] *)

(** X4. [create-room] with a code that [generateRoomCode] returns adds one
    room under that code, holding the requester as its only player and
    host, not started, in regular mode; every room that was in the registry
    is still there unchanged, the timers are untouched, [activeRooms] grows
    by one, and [room-created] goes to the requester only. *)
Theorem create_room_adds (s : State) (socketId name : string)
    (random : list nat) (c : string) :
  generateRoomCode (rooms s) random = Some c →
  ∃ s',
    handle socketId (CreateRoom name random) s
      = Some (s', [(ToSocket socketId,
                    RoomCreated c [createPlayer socketId name true])]) ∧
    JsMap.get (rooms s') c
      = Some (mkRoom c socketId [createPlayer socketId name true]
                     false regular) ∧
    (∀ c' room, JsMap.get (rooms s) c' = Some room →
                JsMap.get (rooms s') c' = Some room) ∧
    activeRooms s' = S (activeRooms s) ∧
    timers s' = timers s.
Proof.
  intros Hgen. pose proof (generateRoomCode_fresh _ _ _ Hgen) as Hfresh.
  simpl. unfold on_create_room. rewrite Hgen.
  eexists. split; [reflexivity|]. simpl. split_and!.
  - by rewrite get_set_eq.
  - intros c' room Hget. rewrite get_set_ne; [done|]. congruence.
  - unfold activeRooms. simpl. by apply set_length_fresh.
  - done.
Qed.

Lemma create_room_adds_witness :
  ∃ s',
    handle "B" (CreateRoom "bob" [0; 1; 2; 3; 25; 24; 23; 22])
      (mkState [("ABCD", mkRoom "ABCD" "A" [createPlayer "A" "ann" true]
                                false regular)]
               (timers initial))
    = Some (s', [(ToSocket "B",
                  RoomCreated "ZYXW" [createPlayer "B" "bob" true])]) ∧
    activeRooms s' = 2.
Proof.
  destruct (create_room_adds
              (mkState [("ABCD", mkRoom "ABCD" "A"
                                   [createPlayer "A" "ann" true]
                                   false regular)]
                       (timers initial))
              "B" "bob" [0; 1; 2; 3; 25; 24; 23; 22] "ZYXW" eq_refl)
    as (s' & H & _ & _ & Hn & _).
  exists s'. split; [exact H | exact Hn].
Defined.

(** ** [start-game] and [new-round] *)





(** ** Rejected requests *)

Lemma disconnect_each_emits (socketId : string)
    (entries : list (string * Room)) (t : Timers) :
  Forall (fun em => ¬ is_error em) (disconnect_each socketId entries t).2.
Proof.
  revert t. induction entries as [|[c room] entries IH]; intros t; simpl.
  - apply Forall_nil_2.
  - destruct (disconnect_room socketId c room t) as [[room' t1] out1] eqn:H1.
    specialize (IH t1).
    destruct (disconnect_each socketId entries t1) as [[rest t2] out2].
    simpl in *. apply Forall_app. split; [|done].
    unfold disconnect_room in H1.
    destruct (list_find _ _) as [[i player]|].
    + destruct (delete i (players room)).
      * injection H1 as _ _ <-. apply Forall_nil_2.
      * destruct (isHost player); injection H1 as _ _ <-;
          apply Forall_singleton; by intros [].
    + injection H1 as _ _ <-. apply Forall_nil_2.
Qed.

(** X7. An error is never broadcast and never comes with anything else:
    when a handler emits an error, that error, addressed to the requester,
    is all it emits, and the registry is exactly as before. The whole
    state is as before unless the event is [join-room]. *)
Theorem error_is_alone (s s' : State) (socketId : string) (e : ClientEvent)
    (out : list Emission) (em : Emission) :
  handle socketId e s = Some (s', out) →
  em ∈ out → is_error em →
  (∃ message, out = [(ToSocket socketId, Error message)]) ∧
  rooms s' = rooms s ∧
  ((∀ roomCode name, e ≠ JoinRoom roomCode name) → s' = s).
Proof.
  destruct e as [name random|roomCode name|roomCode shuffle|roomCode index
                 |roomCode shuffle|roomCode|roomCode|]; simpl.
  - unfold on_create_room.
    destruct (generateRoomCode _ _) as [c|]; [|done].
    intros [= <- <-] ->%list_elem_of_singleton []. 
  - unfold on_join_room.
    destruct (JsMap.get _ _) as [room|]; [|intros [= <- <-]; eauto].
    destruct (gameStarted room); intros [= <- <-] Hin Herr.
    + split_and!; [eauto|done|]. intros H. by destruct (H roomCode name).
    + apply elem_of_cons in Hin as [->|Hin]; [by destruct Herr|].
      apply list_elem_of_singleton in Hin as ->. by destruct Herr.
  - unfold on_start_game.
    destruct (JsMap.get _ _) as [room|]; [|intros [= <- <-]; eauto].
    case_decide; intros [= <- <-]; [eauto|].
    intros (p & -> & _)%list_elem_of_fmap [].
  - unfold on_mark_square.
    destruct (JsMap.get _ _) as [room|]; [|intros [= <- <-]; eauto].
    destruct (list_find _ _) as [[k player]|]; intros [= <- <-]; [|eauto].
    intros [->|Hin]%elem_of_cons Herr; [by destruct Herr|].
    destruct (hasWon _ _); [|by apply not_elem_of_nil in Hin].
    apply list_elem_of_singleton in Hin as ->. by destruct Herr.
  - unfold on_new_round.
    destruct (JsMap.get _ _) as [room|]; [|intros [= <- <-]; eauto].
    case_decide; intros [= <- <-]; [eauto|].
    intros (p & -> & _)%list_elem_of_fmap [].
  - unfold on_continue_to_blackout.
    destruct (JsMap.get _ _) as [room|]; [|intros [= <- <-]; eauto].
    case_decide; intros [= <- <-]; [eauto|].
    intros ->%list_elem_of_singleton [].
  - unfold on_finish_game.
    destruct (JsMap.get _ _) as [room|]; [|intros [= <- <-]; eauto].
    case_decide; [intros [= <- <-]; eauto|].
    destruct (players room); [done|].
    destruct (scan_winner _ _). intros [= <- <-] ->%list_elem_of_singleton [].
  - unfold on_disconnect.
    pose proof (disconnect_each_emits socketId (rooms s) (timers s)) as Hno.
    destruct (disconnect_each _ _ _) as [[rooms' t] o].
    intros [= <- <-] Hin Herr. simpl in Hno.
    rewrite Forall_forall in Hno. by destruct (Hno em Hin).
Qed.

Lemma error_is_alone_witness :
  ∃ message,
    [(ToSocket "B", Error "Only host can start the game")]
    = [(ToSocket "B", Error message)].
Proof.
  destruct (error_is_alone
              (mkState [("ABCD", mkRoom "ABCD" "A"
                                   [createPlayer "A" "ann" true]
                                   false regular)]
                       (timers initial))
              _ "B" (StartGame "ABCD" (fun _ => CLICHES)) _
              (ToSocket "B", Error "Only host can start the game")
              eq_refl (list_elem_of_here _ _) I) as [H _].
  exact H.
Defined.

(** X8. The guards of the room-addressed events. When the code an event
    looks up ([join-room] upper-cases it first) is not in the registry,
    the requester gets the room-not-found error and nothing changes. When
    the room exists and a host-only event ([start-game], [new-round],
    [continue-to-blackout], [finish-game]) comes from a socket that is not
    the room's host, the requester gets an error and nothing changes. *)
Theorem guards_reject (s : State) (socketId : string) (e : ClientEvent)
    (c : string) :
  addressed e = Some c →
  (JsMap.get (rooms s) c = None →
   handle socketId e s
     = Some (s, [(ToSocket socketId, Error "Room not found")])) ∧
  (∀ room, JsMap.get (rooms s) c = Some room →
     host_only e = true → host room ≠ socketId →
     ∃ message,
       handle socketId e s = Some (s, [(ToSocket socketId, Error message)])).
Proof.
  intros Haddr.
  destruct e as [name random|roomCode name|roomCode shuffle|roomCode index
                 |roomCode shuffle|roomCode|roomCode|];
    simpl in Haddr; try done; injection Haddr as <-; simpl; split.
  all: try (intros Hnone;
            unfold on_join_room, on_start_game, on_mark_square, on_new_round,
              on_continue_to_blackout, on_finish_game;
            by rewrite Hnone).
  all: intros room Hget Hpriv Hne; try done.
  all: unfold on_start_game, on_new_round, on_continue_to_blackout,
         on_finish_game; rewrite Hget, decide_True by done; eauto.
Qed.

Lemma guards_reject_witness :
  handle "B" (NewRound "QQQQ" (fun _ => CLICHES)) initial
  = Some (initial, [(ToSocket "B", Error "Room not found")]).
Proof.
  exact (proj1 (guards_reject initial "B" (NewRound "QQQQ" (fun _ => CLICHES))
                  "QQQQ" eq_refl) eq_refl).
Defined.

(** ** More on [mark-square] *)

Lemma set_slot_in_range (l : list (option bool)) (k : nat) (v : bool) :
  k < length l → Js.set_slot l k v = <[k := Some v]> l.
Proof. intros H. unfold Js.set_slot. by rewrite decide_True. Qed.

Lemma toggled_twice (a : Js.array) (i : Z) (b : bool) :
  Js.get a i = Some b → toggled (toggled a i) i = a.
Proof.
  destruct a as [el pr]. unfold toggled, Js.get, Js.set, Js.not. simpl.
  destruct (Js.is_index i) eqn:Hidx; simpl; rewrite ?Hidx; simpl.
  - intros Hget.
    destruct (el !! Z.to_nat i) as [[b0|]|] eqn:Hk; simpl in Hget; try done.
    injection Hget as ->. pose proof (lookup_lt_Some _ _ _ Hk) as Hlt.
    rewrite (set_slot_in_range el) by done.
    rewrite list_lookup_insert_eq by done. simpl.
    rewrite set_slot_in_range by (by rewrite length_insert).
    rewrite list_insert_insert_eq, negb_involutive.
    by rewrite list_insert_id.
  - intros Hget. rewrite Hget. simpl. rewrite lookup_insert_eq. simpl.
    rewrite insert_insert_eq, negb_involutive. by rewrite insert_id.
Qed.

(** X9. Marking the same square twice is a round trip: when the slot the
    index names holds a boolean, a second [mark-square] with the same index
    by the same player brings the whole server state back to what it was
    before the first. *)
Theorem mark_square_twice (s : State) (socketId roomCode : string)
    (index : Z) (room : Room) (k : nat) (p : Player) (b : bool) :
  JsMap.get (rooms s) roomCode = Some room →
  list_find (fun q => id q = socketId) (players room) = Some (k, p) →
  Js.get (markedSquares p) index = Some b →
  ∃ s1 out1 out2,
    handle socketId (MarkSquare roomCode index) s = Some (s1, out1) ∧
    handle socketId (MarkSquare roomCode index) s1 = Some (s, out2).
Proof.
  intros Hget Hfind Hb.
  pose proof Hfind as Hfind0. apply list_find_Some in Hfind0 as (Hk & Hid & _).
  simpl. unfold on_mark_square at 1. rewrite Hget, Hfind.
  eexists _, _, _. split; [reflexivity|].
  unfold on_mark_square. simpl. rewrite get_set_eq. simpl.
  erewrite list_find_insert; [|exact Hfind|done]. simpl.
  fold (toggled (markedSquares p) index).
  fold (toggled (toggled (markedSquares p) index) index).
  rewrite (toggled_twice _ _ _ Hb). f_equal. f_equal.
  destruct s as [rs ts]. simpl in *. f_equal.
  rewrite set_set. apply set_id. rewrite Hget. f_equal.
  destruct room as [rc rh ps st md]. unfold set_players. simpl in *. f_equal.
  rewrite list_insert_insert_eq. symmetry. apply list_insert_id.
  rewrite Hk. f_equal. by destruct p.
Qed.

Lemma mark_square_twice_witness :
  ∃ s1 out1 out2,
    handle "A" (MarkSquare "ABCD" 12)
      (mkState [("ABCD", mkRoom "ABCD" "A" [createPlayer "A" "ann" true]
                                true regular)]
               (timers initial)) = Some (s1, out1) ∧
    handle "A" (MarkSquare "ABCD" 12) s1
    = Some (mkState [("ABCD", mkRoom "ABCD" "A" [createPlayer "A" "ann" true]
                                     true regular)]
                    (timers initial), out2).
Proof.
  exact (mark_square_twice
           (mkState [("ABCD", mkRoom "ABCD" "A" [createPlayer "A" "ann" true]
                                     true regular)]
                    (timers initial))
           "A" "ABCD" 12 _ 0 (createPlayer "A" "ann" true) true
           eq_refl eq_refl eq_refl).
Defined.

(** X10. [mark-square] touches one thing only: the marks of the first
    player of the room whose id is the requester's. That player's id, name,
    host flag and card, every other player of the room, the room's code,
    host, started flag and mode, every other room, the order of the
    registry and the timers are unchanged. *)
Theorem mark_square_frame (s : State) (socketId roomCode : string)
    (index : Z) (room : Room) (k : nat) (p : Player) :
  JsMap.get (rooms s) roomCode = Some room →
  list_find (fun q => id q = socketId) (players room) = Some (k, p) →
  ∃ s' out room',
    handle socketId (MarkSquare roomCode index) s = Some (s', out) ∧
    JsMap.get (rooms s') roomCode = Some room' ∧
    players room'
      = <[k := set_markedSquares (toggled (markedSquares p) index) p]>
          (players room) ∧
    (∀ j, j ≠ k → players room' !! j = players room !! j) ∧
    (code room', host room', gameStarted room', gameMode room')
      = (code room, host room, gameStarted room, gameMode room) ∧
    (∀ c, c ≠ roomCode → JsMap.get (rooms s') c = JsMap.get (rooms s) c) ∧
    (rooms s').*1 = (rooms s).*1 ∧
    timers s' = timers s.
Proof.
  intros Hget Hfind. simpl. unfold on_mark_square. rewrite Hget, Hfind.
  eexists _, _, _. split; [reflexivity|]. simpl. rewrite get_set_eq.
  split; [reflexivity|]. simpl. split_and!; try done.
  - intros j Hj. by rewrite list_lookup_insert_ne.
  - intros c Hc. by rewrite get_set_ne.
  - by eapply keys_set_present.
Qed.

Lemma mark_square_frame_witness :
  ∃ s' out,
    handle "B" (MarkSquare "ABCD" 3)
      (mkState [("ABCD", mkRoom "ABCD" "A"
                           [createPlayer "A" "ann" true;
                            createPlayer "B" "bob" false] true regular)]
               (timers initial)) = Some (s', out) ∧
    timers s' = timers initial.
Proof.
  destruct (mark_square_frame
              (mkState [("ABCD", mkRoom "ABCD" "A"
                           [createPlayer "A" "ann" true;
                            createPlayer "B" "bob" false] true regular)]
                       (timers initial))
              "B" "ABCD" 3 _ 1 (createPlayer "B" "bob" false)
              eq_refl eq_refl)
    as (s' & out & room' & H & _ & _ & _ & _ & _ & _ & Ht).
  exists s', out. split; [exact H | exact Ht].
Defined.

(** ** [disconnect], room by room *)

Lemma disconnect_room_room (socketId roomCode : string) (room : Room)
    (t t' : Timers) :
  (disconnect_room socketId roomCode room t).1.1
  = (disconnect_room socketId roomCode room t').1.1.
Proof.
  unfold disconnect_room. destruct (list_find _ _) as [[i player]|]; [|done].
  destruct (delete i (players room)); [done|]. by destruct (isHost player).
Qed.

Lemma disconnect_each_get (socketId : string)
    (entries : list (string * Room)) (t t0 : Timers) (c : string)
    (room : Room) :
  JsMap.get entries c = Some room →
  JsMap.get (disconnect_each socketId entries t).1.1 c
  = Some (disconnect_room socketId c room t0).1.1.
Proof.
  revert t. induction entries as [|[c0 r0] entries IH]; intros t; [done|].
  simpl. pose proof (disconnect_room_room socketId c0 r0 t t0) as Hroom.
  destruct (disconnect_room socketId c0 r0 t) as [[room' t1] out1].
  specialize (IH t1).
  destruct (disconnect_each socketId entries t1) as [[rest t2] out2].
  simpl in *. destruct (decide (c0 = c)) as [->|Hne].
  - intros [= ->]. by rewrite Hroom.
  - done.
Qed.

Lemma disconnect_each_Forall (socketId : string) (P : string * Room → Prop)
    (entries : list (string * Room)) (t : Timers) :
  (∀ c room t0, P (c, room) →
     P (c, (disconnect_room socketId c room t0).1.1)) →
  Forall P entries →
  Forall P (disconnect_each socketId entries t).1.1.
Proof.
  intros HP H. revert t. induction H as [|[c room] entries Hroom _ IH];
    intros t; [done|].
  simpl. pose proof (HP c room t Hroom) as H1.
  destruct (disconnect_room socketId c room t) as [[room' t1] out1].
  specialize (IH t1).
  destruct (disconnect_each socketId entries t1) as [[rest t2] out2].
  simpl in *. by apply Forall_cons.
Qed.

Lemma remove_first_absent (socketId : string) (ps : list Player) :
  Forall (fun q => id q ≠ socketId) ps →
  remove_first socketId (id <$> ps) = id <$> ps.
Proof.
  induction 1 as [|q ps Hq _ IH]; [done|].
  rewrite fmap_cons. cbn [remove_first].
  rewrite decide_False by done. by rewrite IH.
Qed.

Lemma disconnect_room_fields (socketId roomCode : string) (room : Room)
    (t : Timers) :
  let room' := (disconnect_room socketId roomCode room t).1.1 in
  code room' = code room ∧
  gameStarted room' = gameStarted room ∧
  gameMode room' = gameMode room ∧
  id <$> players room' = remove_first socketId (id <$> players room).
Proof.
  unfold disconnect_room.
  destruct (list_find _ _) as [[i player]|] eqn:Hfind; simpl.
  - assert (id <$> delete i (players room)
            = remove_first socketId (id <$> players room)) as Hids.
    { apply list_find_Some in Hfind as (Hi & Hid & Hbefore).
      clear -Hi Hid Hbefore. revert i Hi Hbefore.
      induction (players room) as [|q ps IH]; intros [|i] Hi Hbefore;
        try done; rewrite fmap_cons; cbn [remove_first delete list_delete].
      - simpl in Hi. injection Hi as ->. by rewrite decide_True.
      - rewrite decide_False by (apply (Hbefore 0 q eq_refl); lia).
        rewrite fmap_cons. f_equal. apply IH; [done|]. intros j y Hj Hlt.
        apply (Hbefore (S j) y Hj). lia. }
    destruct (delete i (players room)) as [|p0 rest]; simpl.
    + by rewrite <- Hids.
    + destruct (isHost player); simpl; by rewrite <- Hids.
  - split_and!; try done. apply list_find_None in Hfind.
    symmetry. by apply remove_first_absent.
Qed.

(** X11. [disconnect] visits every room and removes from each the first
    player whose id is the socket's, and nothing else: in every room the
    ids of the players are the former ids without the first occurrence of
    the socket's id, the room's code, started flag and mode are unchanged,
    and no room enters or leaves the registry. *)
Theorem disconnect_removes_first (s s' : State) (socketId : string)
    (out : list Emission) :
  handle socketId Disconnect s = Some (s', out) →
  (rooms s').*1 = (rooms s).*1 ∧
  ∀ c room,
    JsMap.get (rooms s) c = Some room →
    ∃ room',
      JsMap.get (rooms s') c = Some room' ∧
      id <$> players room' = remove_first socketId (id <$> players room) ∧
      code room' = code room ∧
      gameStarted room' = gameStarted room ∧
      gameMode room' = gameMode room.
Proof.
  simpl. unfold on_disconnect.
  pose proof (disconnect_each_keys socketId (rooms s) (timers s)) as Hkeys.
  pose proof (disconnect_each_get socketId (rooms s) (timers s) (timers s))
    as Hget.
  destruct (disconnect_each _ _ _) as [[rooms' t] o].
  intros [= <- _]. simpl in *. split; [done|].
  intros c room Hc. eexists. split; [by apply Hget|].
  by destruct (disconnect_room_fields socketId c room (timers s))
    as (? & ? & ? & ?).
Qed.

Lemma disconnect_removes_first_witness :
  (rooms (on_disconnect "A"
            (mkState [("ABCD", mkRoom "ABCD" "A"
                                 [createPlayer "A" "ann" true;
                                  createPlayer "B" "bob" false]
                                 false regular)]
                     (timers initial))).1).*1 = ["ABCD"].
Proof.
  exact (proj1 (disconnect_removes_first
                  (mkState [("ABCD", mkRoom "ABCD" "A"
                                       [createPlayer "A" "ann" true;
                                        createPlayer "B" "bob" false]
                                       false regular)]
                           (timers initial))
                  _ "A" _ eq_refl)).
Defined.

(** ** Room codes in the registry *)

Lemma step_coded (s : State) (i : Input) (s' : State) (o : list Emission) :
  Forall entry_coded (rooms s) → random_in_range i →
  step s i = Some (s', o) → Forall entry_coded (rooms s').
Proof.
  intros Hs Hi.
  assert (∀ c room room',
    JsMap.get (rooms s) c = Some room → code room' = code room →
    Forall entry_coded (JsMap.set (rooms s) c room')) as Hset.
  { intros c room room' Hget Hcode. apply Forall_set; [done|].
    destruct (Forall_get _ _ _ _ Hs Hget) as [H1 H2]. split; simpl in *;
      congruence. }
  destruct i as [socketId e|h|dt]; simpl.
  - destruct e as [name random|roomCode name|roomCode shuffle|roomCode index
                   |roomCode shuffle|roomCode|roomCode|]; simpl.
    + unfold on_create_room.
      destruct (generateRoomCode _ _) as [c|] eqn:Hgen; [|done].
      intros [= <- _]. simpl. apply Forall_set; [done|]. split; [done|].
      by eapply generateRoomCode_format.
    + unfold on_join_room.
      destruct (JsMap.get _ _) as [room|] eqn:Hget; [|by intros [= <- _]].
      destruct (gameStarted room); intros [= <- _]; simpl; [done|].
      by eapply Hset.
    + unfold on_start_game.
      destruct (JsMap.get _ _) as [room|] eqn:Hget; [|by intros [= <- _]].
      case_decide; intros [= <- _]; simpl; [done|]. by eapply Hset.
    + unfold on_mark_square.
      destruct (JsMap.get _ _) as [room|] eqn:Hget; [|by intros [= <- _]].
      destruct (list_find _ _) as [[k player]|]; intros [= <- _]; simpl;
        [|done]. by eapply Hset.
    + unfold on_new_round.
      destruct (JsMap.get _ _) as [room|] eqn:Hget; [|by intros [= <- _]].
      case_decide; intros [= <- _]; simpl; [done|]. by eapply Hset.
    + unfold on_continue_to_blackout.
      destruct (JsMap.get _ _) as [room|] eqn:Hget; [|by intros [= <- _]].
      case_decide; intros [= <- _]; simpl; [done|]. by eapply Hset.
    + unfold on_finish_game.
      destruct (JsMap.get _ _) as [room|] eqn:Hget; [|by intros [= <- _]].
      case_decide; [by intros [= <- _]|].
      destruct (players room); [done|].
      destruct (scan_winner _ _). by intros [= <- _].
    + unfold on_disconnect.
      pose proof (disconnect_each_Forall socketId entry_coded (rooms s)
                    (timers s)) as H.
      destruct (disconnect_each _ _ _) as [[rooms' t] out].
      intros [= <- _]. simpl in *. apply H; [|done].
      intros c room t0 [H1 H2]. split; [|done]. simpl in *.
      by destruct (disconnect_room_fields socketId c room t0) as (-> & _).
  - destruct (timeouts _ !! h) as [[roomCode due]|]; [|done].
    case_decide; [|done]. intros [= <- _].
    unfold cleanupCallback. simpl.
    destruct (JsMap.get _ _) as [room|]; [|done].
    destruct (players room); [|done]. simpl. by apply Forall_remove.
  - case_decide; [|done]. by intros [= <- _].
Qed.

(** X12. After every sequence of turns in which the random values of
    [create-room] are letter positions, no two rooms of the registry share
    a code, every room is stored under the code it carries, and that code
    is four letters A to Z, so that upper-casing leaves it unchanged. *)
Theorem room_codes_wellformed (inputs : list Input) (s : State)
    (outs : list (list Emission)) :
  Forall random_in_range inputs →
  run initial inputs = Some (s, outs) →
  NoDup (rooms s).*1 ∧
  ∀ c room,
    JsMap.get (rooms s) c = Some room →
    code room = c ∧ is_room_code c = true ∧ toUpperCase c = c.
Proof.
  intros Hin Hrun. split.
  - apply (reachable_inv s). by exists inputs, outs.
  - assert (Forall entry_coded (rooms s)) as Hs.
    { eapply (run_invariant (fun x => Forall entry_coded (rooms x))
                random_in_range); [|..|exact Hrun].
      - intros ? ? ? ?. apply step_coded.
      - apply Forall_nil_2.
      - exact Hin. }
    intros c room Hget. destruct (Forall_get _ _ _ _ Hs Hget) as [H1 H2].
    simpl in *. split_and!; [done..|]. by apply room_code_fixed.
Qed.

Lemma room_codes_wellformed_witness :
  ∃ s outs,
    run initial [FromSocket "A" (CreateRoom "ann" [0; 1; 2; 3]);
                 FromSocket "B" (CreateRoom "bob" [0; 1; 2; 3; 4; 5; 6; 7])]
      = Some (s, outs) ∧
    NoDup (rooms s).*1.
Proof.
  assert (Forall random_in_range
            [FromSocket "A" (CreateRoom "ann" [0; 1; 2; 3]);
             FromSocket "B" (CreateRoom "bob" [0; 1; 2; 3; 4; 5; 6; 7])])
    as Hin.
  { apply Forall_cons; split;
      [simpl; repeat (apply Forall_cons; split; [lia|]); apply Forall_nil_2|].
    apply Forall_cons; split; [|apply Forall_nil_2].
    simpl; repeat (apply Forall_cons; split; [lia|]); apply Forall_nil_2. }
  eexists _, _. split; [reflexivity|].
  exact (proj1 (room_codes_wellformed _ _ _ Hin eq_refl)).
Defined.

(** ** Started rooms *)

Lemma step_started (s : State) (i : Input) (s' : State) (o : list Emission)
    (c : string) (room room' : Room) :
  JsMap.get (rooms s) c = Some room → gameStarted room = true →
  step s i = Some (s', o) →
  JsMap.get (rooms s') c = Some room' →
  gameStarted room' = true ∧ length (players room') ≤ length (players room).
Proof.
  intros Hget Hst.
  assert (∀ c0 r0 r1,
    JsMap.get (rooms s) c0 = Some r0 →
    (c0 = c → gameStarted r1 = true ∧
              length (players r1) ≤ length (players room)) →
    JsMap.get (JsMap.set (rooms s) c0 r1) c = Some room' →
    gameStarted room' = true ∧ length (players room') ≤ length (players room))
    as Hset.
  { intros c0 r0 r1 H0 Hr1. destruct (decide (c0 = c)) as [->|Hne].
    - rewrite get_set_eq. intros [= <-]. by apply Hr1.
    - rewrite get_set_ne by done. rewrite Hget. by intros [= <-]. }
  assert (JsMap.get (rooms s) c = Some room' →
          gameStarted room' = true ∧
          length (players room') ≤ length (players room)) as Hsame.
  { rewrite Hget. by intros [= <-]. }
  destruct i as [socketId e|h|dt]; simpl.
  - destruct e as [name random|roomCode name|roomCode shuffle|roomCode index
                   |roomCode shuffle|roomCode|roomCode|]; simpl.
    + unfold on_create_room.
      destruct (generateRoomCode _ _) as [c0|] eqn:Hgen; [|done].
      apply generateRoomCode_fresh in Hgen.
      intros [= <- _]. simpl. rewrite get_set_ne by congruence. done.
    + unfold on_join_room.
      destruct (JsMap.get (rooms s) (toUpperCase roomCode)) as [r0|] eqn:H0; [|by intros [= <- _]].
      destruct (gameStarted r0) eqn:Hs0; intros [= <- _]; simpl; [done|].
      apply (Hset _ _ _ H0). intros Heq. congruence.
    + unfold on_start_game.
      destruct (JsMap.get (rooms s) roomCode) as [r0|] eqn:H0; [|by intros [= <- _]].
      case_decide; intros [= <- _]; simpl; [done|].
      apply (Hset _ _ _ H0). intros ->. simpl. rewrite length_imap.
      split; [done|]. by replace r0 with room by congruence.
    + unfold on_mark_square.
      destruct (JsMap.get (rooms s) roomCode) as [r0|] eqn:H0; [|by intros [= <- _]].
      destruct (list_find _ _) as [[k player]|]; intros [= <- _]; simpl;
        [|done].
      apply (Hset _ _ _ H0). intros ->. simpl. rewrite length_insert.
      replace r0 with room by congruence. done.
    + unfold on_new_round.
      destruct (JsMap.get (rooms s) roomCode) as [r0|] eqn:H0; [|by intros [= <- _]].
      case_decide; intros [= <- _]; simpl; [done|].
      apply (Hset _ _ _ H0). intros ->. simpl. rewrite length_imap.
      replace r0 with room by congruence. done.
    + unfold on_continue_to_blackout.
      destruct (JsMap.get (rooms s) roomCode) as [r0|] eqn:H0; [|by intros [= <- _]].
      case_decide; intros [= <- _]; simpl; [done|].
      apply (Hset _ _ _ H0). intros ->. simpl.
      replace r0 with room by congruence. done.
    + unfold on_finish_game.
      destruct (JsMap.get (rooms s) roomCode) as [r0|] eqn:H0; [|by intros [= <- _]].
      case_decide; [by intros [= <- _]|].
      destruct (players r0); [done|].
      destruct (scan_winner _ _). by intros [= <- _].
    + unfold on_disconnect.
      pose proof (disconnect_each_get socketId (rooms s) (timers s)
                    (timers s) c room Hget) as Hg.
      destruct (disconnect_each _ _ _) as [[rooms' t] out].
      intros [= <- _]. simpl in *. rewrite Hg. intros [= <-].
      destruct (disconnect_room_fields socketId c room (timers s))
        as (_ & -> & _ & Hids).
      split; [done|]. apply (f_equal length) in Hids.
      rewrite !length_fmap in Hids. rewrite Hids.
      clear. induction (players room) as [|q ps IH]; [done|].
      rewrite fmap_cons. cbn [remove_first].
      case_decide; simpl; rewrite ?length_fmap in *; lia.
  - destruct (timeouts _ !! h) as [[roomCode due]|]; [|done].
    case_decide; [|done]. intros [= <- _].
    destruct (decide (roomCode = c)) as [->|Hne].
    + rewrite (cleanupCallback_same c _ room) by done.
      destruct (players room) eqn:Hps; [done|]. intros [= <-].
      by rewrite Hps.
    + rewrite cleanupCallback_other by done. done.
  - case_decide; [|done]. by intros [= <- _].
Qed.

(** X13. A started room stays closed. Once [gameStarted] is set, it stays
    set and the room never gains a player, through every later sequence of
    turns in which no cleanup timer fires: no handler clears the flag, not
    even [new-round], and [join-room] rejects every request for the room. *)
Theorem started_room_stays_closed (inputs : list Input) :
  ∀ (s s' : State) (outs : list (list Emission)) (c : string) (room : Room),
  JsMap.get (rooms s) c = Some room →
  gameStarted room = true →
  Forall (fun i => ¬ is_timer_fire i) inputs →
  run s inputs = Some (s', outs) →
  ∃ room',
    JsMap.get (rooms s') c = Some room' ∧
    gameStarted room' = true ∧
    length (players room') ≤ length (players room).
Proof.
  induction inputs as [|i inputs IH]; intros s s' outs c room Hget Hst Hq.
  - simpl. intros [= <- _]. eauto.
  - apply Forall_cons in Hq as [Hi Hq]. simpl.
    destruct (step s i) as [[s1 o]|] eqn:Hstep; [|done].
    destruct (run s1 inputs) as [[s2 os]|] eqn:Hrun; [|done].
    intros [= <- _].
    destruct (step_live s i s1 o c) as [[room1 Hget1]|(h & ? & -> & _)];
      [by eexists|done| |by destruct Hi].
    destruct (step_started _ _ _ _ _ _ _ Hget Hst Hstep Hget1) as [Hst1 Hle1].
    destruct (IH s1 s2 os c room1 Hget1 Hst1 Hq Hrun)
      as (room' & Hget' & Hst' & Hle').
    exists room'. split_and!; [done..|lia].
Qed.

Lemma started_room_stays_closed_witness :
  ∃ room',
    JsMap.get
      (rooms (on_join_room "B" "abcd" "bob"
                (mkState [("ABCD", mkRoom "ABCD" "A"
                                     [createPlayer "A" "ann" true]
                                     true regular)]
                         (timers initial))).1) "ABCD" = Some room' ∧
    gameStarted room' = true ∧
    length (players room') ≤ 1.
Proof.
  assert (Forall (fun i => ¬ is_timer_fire i)
            [FromSocket "B" (JoinRoom "abcd" "bob")]) as Hq.
  { apply Forall_singleton. simpl. exact (fun H => H). }
  exact (started_room_stays_closed
           [FromSocket "B" (JoinRoom "abcd" "bob")]
           (mkState [("ABCD", mkRoom "ABCD" "A"
                                [createPlayer "A" "ann" true]
                                true regular)]
                    (timers initial))
           _ _ "ABCD" _ eq_refl eq_refl Hq eq_refl).
Defined.

(** ** Host validity, turn by turn *)




(** ** Armed timers and the rooms they clean up *)

Lemma scheduleRoomCleanup_origin_code (c : string) (t : Timers) (h : nat)
    (c' : string) (due : Z) :
  timeouts (scheduleRoomCleanup c t) !! h = Some (c', due) →
  timeouts t !! h = Some (c', due) ∨ c' = c.
Proof.
  unfold scheduleRoomCleanup.
  destruct (roomTimers t !! c) as [h0|]; simpl;
    intros [[_ [= <- _]]|[_ H]]%lookup_insert_Some; auto.
  apply lookup_delete_Some in H as [_ H]. auto.
Qed.

Lemma disconnect_room_origin_code (socketId c : string) (room : Room)
    (t : Timers) (h : nat) (c' : string) (due : Z) :
  timeouts (disconnect_room socketId c room t).1.2 !! h = Some (c', due) →
  timeouts t !! h = Some (c', due) ∨ c' = c.
Proof.
  unfold disconnect_room. destruct (list_find _ _) as [[i player]|]; [|auto].
  destruct (delete i (players room)); simpl.
  - apply scheduleRoomCleanup_origin_code.
  - destruct (isHost player); simpl; intros H;
      left; by eapply cancelRoomCleanup_origin.
Qed.

(** A timer armed for the room just visited: the room is now empty. *)
Lemma disconnect_room_armed_self (socketId c : string) (room : Room)
    (t : Timers) (h : nat) (due : Z) :
  timers_inv t →
  (∀ h0 due0, timeouts t !! h0 = Some (c, due0) → players room = []) →
  timeouts (disconnect_room socketId c room t).1.2 !! h = Some (c, due) →
  players (disconnect_room socketId c room t).1.1 = [].
Proof.
  intros Ht Hold. unfold disconnect_room.
  destruct (list_find _ _) as [[i player]|]; [|by apply Hold].
  destruct (delete i (players room)); simpl; [done|].
  destruct (isHost player); simpl; intros H;
    by apply (cancelRoomCleanup_clears c t Ht) in H.
Qed.

Lemma disconnect_each_armed (socketId : string)
    (entries : list (string * Room)) (t : Timers) (h : nat) (c : string)
    (due : Z) :
  NoDup entries.*1 → timers_inv t →
  (∀ h0 c0 due0 room,
     timeouts t !! h0 = Some (c0, due0) →
     JsMap.get entries c0 = Some room → players room = []) →
  timeouts (disconnect_each socketId entries t).1.2 !! h = Some (c, due) →
  (∃ room', JsMap.get (disconnect_each socketId entries t).1.1 c = Some room'
            ∧ players room' = []) ∨
  ((c ∉ entries.*1) ∧ timeouts t !! h = Some (c, due)).
Proof.
  revert t. induction entries as [|[c0 r0] entries IH];
    intros t Hnd Ht Hold; simpl.
  - intros H. right. split; [apply not_elem_of_nil|done].
  - rewrite fmap_cons in Hnd. apply NoDup_cons in Hnd as [Hnin Hnd].
    simpl in Hnin.
    pose proof (disconnect_room_inv socketId c0 r0 t Ht) as Ht1.
    pose proof (disconnect_room_origin_code socketId c0 r0 t) as Horig.
    pose proof (disconnect_room_armed_self socketId c0 r0 t) as Hself.
    destruct (disconnect_room socketId c0 r0 t) as [[room0 t1] out1].
    simpl in *.
    assert (∀ h0 c1 due0 room,
              timeouts t1 !! h0 = Some (c1, due0) →
              JsMap.get entries c1 = Some room → players room = []) as Hold1.
    { intros h0 c1 due0 room Harm Hget.
      assert (c1 ≠ c0) as Hne
        by (intros ->; by apply Hnin, (get_Some_key _ _ room)).
      destruct (Horig _ _ _ Harm) as [H|H]; [|done].
      apply (Hold h0 c1 due0 room H). by rewrite decide_False. }
    specialize (IH t1 Hnd Ht1 Hold1).
    pose proof (disconnect_each_keys socketId entries t1) as Hkeys.
    destruct (disconnect_each socketId entries t1) as [[rest t2] out2].
    simpl in *. intros Harm.
    destruct (IH Harm) as [(room' & Hget' & Hemp)|[Hnin' Harm1]].
    + left. exists room'. split; [|done].
      rewrite decide_False; [done|]. intros <-.
      apply Hnin. rewrite <- Hkeys. by apply (get_Some_key _ _ room').
    + destruct (decide (c0 = c)) as [->|Hne].
      * left. exists room0. split; [done|].
        apply (Hself h due Ht); [|done].
        intros h0 due0 H0. apply (Hold h0 c due0 r0 H0).
        by rewrite decide_True.
      * right. split.
        -- apply not_elem_of_cons. split; [done|done].
        -- destruct (Horig _ _ _ Harm1) as [H|H]; [done|congruence].
Qed.

Lemma step_armed (s : State) (i : Input) (s' : State) (o : list Emission) :
  state_inv s → armed_for_empty s →
  step s i = Some (s', o) → armed_for_empty s'.
Proof.
  intros [Hnd Ht] Harmed.
  assert (∀ c0 r0 r1,
    JsMap.get (rooms s) c0 = Some r0 →
    (players r0 = [] → players r1 = []) →
    armed_for_empty (mkState (JsMap.set (rooms s) c0 r1) (timers s)))
    as Hset.
  { intros c0 r0 r1 H0 Hemp h c due Harm. simpl in *.
    destruct (Harmed h c due Harm) as (room & Hget & Hps).
    destruct (decide (c0 = c)) as [->|Hne].
    - rewrite get_set_eq. eexists. split; [done|].
      apply Hemp. congruence.
    - rewrite get_set_ne by done. eauto. }
  destruct i as [socketId e|h|dt]; simpl.
  - destruct e as [name random|roomCode name|roomCode shuffle|roomCode index
                   |roomCode shuffle|roomCode|roomCode|]; simpl.
    + unfold on_create_room.
      destruct (generateRoomCode _ _) as [c0|] eqn:Hgen; [|done].
      apply generateRoomCode_fresh in Hgen.
      intros [= <- _] h c due Harm. simpl in *.
      destruct (Harmed h c due Harm) as (room & Hget & Hps).
      exists room. split; [|done]. rewrite get_set_ne; [done|]. congruence.
    + unfold on_join_room.
      destruct (JsMap.get (rooms s) (toUpperCase roomCode)) as [r0|] eqn:H0;
        [|by intros [= <- _]].
      assert (∀ rooms',
        (∀ c, c ≠ toUpperCase roomCode →
              JsMap.get rooms' c = JsMap.get (rooms s) c) →
        armed_for_empty
          (mkState rooms' (cancelRoomCleanup (toUpperCase roomCode)
                             (timers s)))) as Hjoin.
      { intros rooms' Hframe h c due Harm. simpl in *.
        assert (c ≠ toUpperCase roomCode) as Hne.
        { intros ->. by apply (cancelRoomCleanup_clears _ _ Ht) in Harm. }
        apply cancelRoomCleanup_origin in Harm.
        rewrite Hframe by done. eauto. }
      destruct (gameStarted r0); intros [= <- _]; apply Hjoin.
      * done.
      * intros c Hne. by rewrite get_set_ne.
    + unfold on_start_game.
      destruct (JsMap.get (rooms s) roomCode) as [r0|] eqn:H0;
        [|by intros [= <- _]].
      case_decide; intros [= <- _]; [done|].
      apply (Hset _ _ _ H0). simpl. by intros ->.
    + unfold on_mark_square.
      destruct (JsMap.get (rooms s) roomCode) as [r0|] eqn:H0;
        [|by intros [= <- _]].
      destruct (list_find _ _) as [[k player]|] eqn:Hfind;
        intros [= <- _]; [|done].
      apply (Hset _ _ _ H0). simpl. intros Hps. by rewrite Hps in Hfind.
    + unfold on_new_round.
      destruct (JsMap.get (rooms s) roomCode) as [r0|] eqn:H0;
        [|by intros [= <- _]].
      case_decide; intros [= <- _]; [done|].
      apply (Hset _ _ _ H0). simpl. by intros ->.
    + unfold on_continue_to_blackout.
      destruct (JsMap.get (rooms s) roomCode) as [r0|] eqn:H0;
        [|by intros [= <- _]].
      case_decide; intros [= <- _]; [done|].
      by apply (Hset _ _ _ H0).
    + unfold on_finish_game.
      destruct (JsMap.get (rooms s) roomCode) as [r0|] eqn:H0;
        [|by intros [= <- _]].
      case_decide; [by intros [= <- _]|].
      destruct (players r0); [done|].
      destruct (scan_winner _ _). by intros [= <- _].
    + unfold on_disconnect.
      pose proof (disconnect_each_armed socketId (rooms s) (timers s)) as H.
      destruct (disconnect_each _ _ _) as [[rooms' t] out].
      intros [= <- _] h c due Harm. simpl in *.
      destruct (H h c due Hnd Ht) as [Hl|[Hnin Hold]]; [|done|done|].
      * intros h0 c0 due0 room Harm0 Hget0.
        destruct (Harmed _ _ _ Harm0) as (room1 & Hget1 & Hps). congruence.
      * destruct (Harmed _ _ _ Hold) as (room1 & Hget1 & _).
        by apply get_Some_key in Hget1.
  - destruct (timeouts _ !! h) as [[roomCode due]|] eqn:Hh; [|done].
    case_decide; [|done]. intros [= <- _] h' c due' Harm.
    assert (timeouts (timers s) !! h' = Some (c, due') ∧ h' ≠ h) as [Hold Hne].
    { revert Harm. unfold cleanupCallback. simpl.
      destruct (JsMap.get (rooms s) roomCode) as [room|]; simpl;
        [destruct (players room); simpl|];
        by intros [? ?]%lookup_delete_Some. }
    assert (roomCode ≠ c) as Hnc.
    { intros ->. apply (armed_registered _ Ht) in Hh.
      apply (armed_registered _ Ht) in Hold. congruence. }
    rewrite cleanupCallback_other by done. simpl. eauto.
  - case_decide; [|done]. intros [= <- _]. exact Harmed.
Qed.

Lemma reachable_armed (s : State) :
  reachable s → state_inv s ∧ armed_for_empty s.
Proof.
  intros (inputs & outs & Hrun).
  eapply (run_invariant (fun x => state_inv x ∧ armed_for_empty x)
            (fun _ => True)); [| |apply Forall_true|exact Hrun].
  - intros x i x' o [Hx Ha] _ Hs. split.
    + by eapply step_inv.
    + by eapply step_armed.
  - split; [split; [apply NoDup_nil_2|by split]|]. by intros h c due.
  - done.
Qed.

Lemma delete_absent {V} (m : list (string * V)) (k : string) :
  k ∉ m.*1 → JsMap.delete m k = m.
Proof.
  induction m as [|[k' v'] m IH]; [done|]. rewrite fmap_cons.
  intros [Hne Hnin]%not_elem_of_cons. simpl in *.
  rewrite decide_False by done. by rewrite IH.
Qed.

Lemma delete_length {V} (m : list (string * V)) (k : string) (v : V) :
  NoDup m.*1 → JsMap.get m k = Some v →
  S (length (JsMap.delete m k)) = length m.
Proof.
  induction m as [|[k' v'] m IH]; [done|]. rewrite fmap_cons.
  intros [Hnin Hnd]%NoDup_cons. simpl in *.
  destruct (decide (k' = k)) as [->|Hne].
  - intros _. by rewrite delete_absent.
  - intros Hget. simpl. by rewrite IH.
Qed.

(** X15. In every reachable state an armed cleanup timer belongs to a room
    that is in the registry and has no player, and no room has two armed
    timers. So a timer that fires always finds its room empty and deletes
    it: the room is gone from the registry and [activeRooms] drops by
    one. *)
Theorem armed_timers_clean_up (s : State) (h : nat) (c : string) (due : Z) :
  reachable s →
  timeouts (timers s) !! h = Some (c, due) →
  (∃ room, JsMap.get (rooms s) c = Some room ∧ players room = []) ∧
  (∀ h' due', timeouts (timers s) !! h' = Some (c, due') → h' = h) ∧
  (∀ s' o, step s (TimerFires h) = Some (s', o) →
     JsMap.get (rooms s') c = None ∧
     S (activeRooms s') = activeRooms s ∧
     ∀ c', c' ≠ c → JsMap.get (rooms s') c' = JsMap.get (rooms s) c').
Proof.
  intros Hreach Harm.
  destruct (reachable_armed s Hreach) as [[Hnd Ht] Harmed].
  destruct (Harmed h c due Harm) as (room & Hget & Hps).
  split_and!.
  - eauto.
  - intros h' due' Harm'. apply (armed_registered _ Ht) in Harm.
    apply (armed_registered _ Ht) in Harm'. congruence.
  - intros s' o. simpl. rewrite Harm. case_decide; [|done].
    intros [= <- _]. split_and!.
    + rewrite (cleanupCallback_same c _ room) by done. by rewrite Hps.
    + unfold cleanupCallback, activeRooms. simpl. rewrite Hget, Hps. simpl.
      by eapply delete_length.
    + intros c' Hne. by rewrite cleanupCallback_other.
Qed.

Lemma armed_timers_clean_up_witness :
  ∃ room,
    JsMap.get [("ABCD", mkRoom "ABCD" "A" [] false regular)] "ABCD"
      = Some room ∧ players room = [].
Proof.
  assert (reachable
            (mkState [("ABCD", mkRoom "ABCD" "A" [] false regular)]
                     (mkTimers {["ABCD" := 0]}
                               {[0 := ("ABCD", ROOM_TIMEOUT)]} 1 0)))
    as Hreach.
  { exists [FromSocket "A" (CreateRoom "ann" [0; 1; 2; 3]);
            FromSocket "A" Disconnect]. eexists.
    vm_compute. reflexivity. }
  exact (proj1 (armed_timers_clean_up _ 0 "ABCD" ROOM_TIMEOUT Hreach
                  eq_refl)).
Defined.

(** ** [activeRooms] *)

(** X16. What the HTTP endpoints report as [activeRooms] changes in two
    ways only, in every reachable state: [create-room] raises it by one
    and a cleanup timer that fires lowers it by one. Every other socket
    event, [disconnect] included, and the passing of time leave it as it
    is. *)
Theorem activeRooms_changes (s : State) (i : Input) (s' : State)
    (o : list Emission) :
  reachable s →
  step s i = Some (s', o) →
  match i with
  | FromSocket _ (CreateRoom _ _) => activeRooms s' = S (activeRooms s)
  | TimerFires _ => S (activeRooms s') = activeRooms s
  | _ => activeRooms s' = activeRooms s
  end.
Proof.
  intros Hreach. unfold activeRooms.
  assert (∀ c r0 r1 t, JsMap.get (rooms s) c = Some r0 →
            length (rooms (mkState (JsMap.set (rooms s) c r1) t))
            = length (rooms s)) as Hset
    by (intros; simpl; by eapply set_length_present).
  destruct i as [socketId e|h|dt]; simpl.
  - destruct e as [name random|roomCode name|roomCode shuffle|roomCode index
                   |roomCode shuffle|roomCode|roomCode|]; simpl.
    + unfold on_create_room.
      destruct (generateRoomCode _ _) as [c0|] eqn:Hgen; [|done].
      apply generateRoomCode_fresh in Hgen.
      intros [= <- _]. simpl. by apply set_length_fresh.
    + unfold on_join_room.
      destruct (JsMap.get (rooms s) (toUpperCase roomCode)) as [r0|] eqn:H0;
        [|by intros [= <- _]].
      destruct (gameStarted r0); intros [= <- _]; [done|]. by eapply Hset.
    + unfold on_start_game.
      destruct (JsMap.get (rooms s) roomCode) as [r0|] eqn:H0;
        [|by intros [= <- _]].
      case_decide; intros [= <- _]; [done|]. by eapply Hset.
    + unfold on_mark_square.
      destruct (JsMap.get (rooms s) roomCode) as [r0|] eqn:H0;
        [|by intros [= <- _]].
      destruct (list_find _ _) as [[k player]|]; intros [= <- _]; [|done].
      by eapply Hset.
    + unfold on_new_round.
      destruct (JsMap.get (rooms s) roomCode) as [r0|] eqn:H0;
        [|by intros [= <- _]].
      case_decide; intros [= <- _]; [done|]. by eapply Hset.
    + unfold on_continue_to_blackout.
      destruct (JsMap.get (rooms s) roomCode) as [r0|] eqn:H0;
        [|by intros [= <- _]].
      case_decide; intros [= <- _]; [done|]. by eapply Hset.
    + unfold on_finish_game.
      destruct (JsMap.get (rooms s) roomCode) as [r0|] eqn:H0;
        [|by intros [= <- _]].
      case_decide; [by intros [= <- _]|].
      destruct (players r0); [done|].
      destruct (scan_winner _ _). by intros [= <- _].
    + unfold on_disconnect.
      pose proof (disconnect_each_keys socketId (rooms s) (timers s)) as Hk.
      destruct (disconnect_each _ _ _) as [[rooms' t] out].
      intros [= <- _]. simpl in *. apply (f_equal length) in Hk.
      by rewrite !length_fmap in Hk.
  - destruct (timeouts _ !! h) as [[roomCode due]|] eqn:Hh; [|done].
    case_decide; [|done]. intros [= <- _].
    destruct (reachable_armed s Hreach) as [[Hnd Ht] Harmed].
    destruct (Harmed h roomCode due Hh) as (room & Hget & Hps).
    unfold cleanupCallback. simpl. rewrite Hget, Hps. simpl.
    by eapply delete_length.
  - case_decide; [|done]. by intros [= <- _].
Qed.

Lemma activeRooms_changes_witness :
  ∃ s' o,
    step initial (FromSocket "A" (CreateRoom "ann" [0; 1; 2; 3]))
      = Some (s', o) ∧
    activeRooms s' = 1.
Proof.
  eexists _, _. split; [reflexivity|].
  exact (activeRooms_changes initial
           (FromSocket "A" (CreateRoom "ann" [0; 1; 2; 3])) _ _
           (ex_intro _ [] (ex_intro _ [] eq_refl)) eq_refl).
Defined.

(** ** Properties every player keeps *)

Section players_invariant.

Context (P : Player → Prop) (Q : Input → Prop).
Hypothesis P_create : ∀ socketId name h, P (createPlayer socketId name h).
Hypothesis P_host : ∀ p, P p → P (set_isHost true p).
Hypothesis P_mark :
  ∀ socketId c index p,
    Q (FromSocket socketId (MarkSquare c index)) → P p →
    P (set_markedSquares (toggled (markedSquares p) index) p).
Hypothesis P_start :
  ∀ socketId c shuffle k p,
    Q (FromSocket socketId (StartGame c shuffle)) → P p →
    P (set_bingoCard (generateBingoCard (shuffle k)) p).
Hypothesis P_new :
  ∀ socketId c shuffle k p,
    Q (FromSocket socketId (NewRound c shuffle)) → P p →
    P (set_markedSquares initial_marks
         (set_bingoCard (generateBingoCard (shuffle k)) p)).

Lemma disconnect_room_players (socketId c : string) (room : Room)
    (t : Timers) :
  Forall P (players room) →
  Forall P (players (disconnect_room socketId c room t).1.1).
Proof.
  intros Hroom. unfold disconnect_room.
  destruct (list_find _ _) as [[i player]|]; [|done].
  pose proof (Forall_delete _ _ i Hroom) as Hdel.
  destruct (delete i (players room)) as [|p0 rest]; simpl; [done|].
  apply Forall_cons in Hdel as [H0 Hrest].
  destruct (isHost player); simpl; apply Forall_cons; auto.
Qed.

Lemma step_all_players (s : State) (i : Input) (s' : State)
    (o : list Emission) :
  all_players P s → Q i → step s i = Some (s', o) → all_players P s'.
Proof.
  unfold all_players. intros Hs Hi.
  destruct i as [socketId e|h|dt]; simpl.
  - destruct e as [name random|roomCode name|roomCode shuffle|roomCode index
                   |roomCode shuffle|roomCode|roomCode|]; simpl.
    + unfold on_create_room.
      destruct (generateRoomCode _ _) as [c|]; [|done].
      intros [= <- _]. simpl. apply Forall_set; [done|].
      by apply Forall_singleton.
    + unfold on_join_room.
      destruct (JsMap.get _ _) as [room|] eqn:Hget; [|by intros [= <- _]].
      pose proof (Forall_get _ _ _ _ Hs Hget) as Hroom.
      destruct (gameStarted room); intros [= <- _]; simpl; [done|].
      apply Forall_set; [done|]. simpl. apply Forall_app. split; [done|].
      by apply Forall_singleton.
    + unfold on_start_game.
      destruct (JsMap.get _ _) as [room|] eqn:Hget; [|by intros [= <- _]].
      pose proof (Forall_get _ _ _ _ Hs Hget) as Hroom.
      case_decide; intros [= <- _]; simpl; [done|].
      apply Forall_set; [done|]. simpl.
      eapply Forall_imap; [|exact Hroom]. intros k p Hp. by eapply P_start.
    + unfold on_mark_square.
      destruct (JsMap.get _ _) as [room|] eqn:Hget; [|by intros [= <- _]].
      pose proof (Forall_get _ _ _ _ Hs Hget) as Hroom.
      destruct (list_find _ _) as [[k player]|] eqn:Hfind;
        [|by intros [= <- _]].
      intros [= <- _]. simpl. apply Forall_set; [done|]. simpl.
      apply Forall_insert; [done|].
      apply list_find_Some in Hfind as (Hk & _ & _).
      eapply P_mark; [done|]. by apply (Forall_lookup_1 _ _ _ _ Hroom Hk).
    + unfold on_new_round.
      destruct (JsMap.get _ _) as [room|] eqn:Hget; [|by intros [= <- _]].
      pose proof (Forall_get _ _ _ _ Hs Hget) as Hroom.
      case_decide; intros [= <- _]; simpl; [done|].
      apply Forall_set; [done|]. simpl.
      eapply Forall_imap; [|exact Hroom]. intros k p Hp. by eapply P_new.
    + unfold on_continue_to_blackout.
      destruct (JsMap.get _ _) as [room|] eqn:Hget; [|by intros [= <- _]].
      pose proof (Forall_get _ _ _ _ Hs Hget) as Hroom.
      case_decide; intros [= <- _]; simpl; [done|].
      by apply Forall_set.
    + unfold on_finish_game.
      destruct (JsMap.get _ _) as [room|] eqn:Hget; [|by intros [= <- _]].
      case_decide; [by intros [= <- _]|].
      destruct (players room); [done|].
      destruct (scan_winner _ _). by intros [= <- _].
    + unfold on_disconnect.
      pose proof (disconnect_each_Forall socketId
                    (fun e => Forall P (players e.2)) (rooms s) (timers s))
        as H.
      destruct (disconnect_each _ _ _) as [[rooms' t] out].
      intros [= <- _]. simpl in *. apply H; [|done].
      intros c room t0. apply disconnect_room_players.
  - destruct (timeouts _ !! h) as [[roomCode due]|]; [|done].
    case_decide; [|done]. intros [= <- _].
    unfold cleanupCallback. simpl.
    destruct (JsMap.get _ _) as [room|]; [|done].
    destruct (players room); [|done]. simpl. by apply Forall_remove.
  - case_decide; [|done]. by intros [= <- _].
Qed.

Lemma run_all_players (inputs : list Input) (s : State)
    (outs : list (list Emission)) (c : string) (room : Room) (p : Player) :
  Forall Q inputs → run initial inputs = Some (s, outs) →
  JsMap.get (rooms s) c = Some room → p ∈ players room → P p.
Proof.
  intros Hin Hrun Hget Hp.
  assert (all_players P s) as Hs.
  { eapply (run_invariant (all_players P) Q); [|..|exact Hrun].
    - intros ? ? ? ?. apply step_all_players.
    - apply Forall_nil_2.
    - exact Hin. }
  pose proof (Forall_get _ _ _ _ Hs Hget) as Hroom. simpl in Hroom.
  rewrite Forall_forall in Hroom. auto.
Qed.

End players_invariant.

(** X17. Whatever the clients send, a marks array never gets shorter than
    the board: after every sequence of turns, with any [mark-square]
    indices, every player of every room has at least 25 mark slots. *)
Theorem marks_never_shorter (inputs : list Input) (s : State)
    (outs : list (list Emission)) (c : string) (room : Room) (p : Player) :
  run initial inputs = Some (s, outs) →
  JsMap.get (rooms s) c = Some room →
  p ∈ players room →
  25 ≤ Js.length (markedSquares p).
Proof.
  intros Hrun Hget Hp.
  eapply (run_all_players (fun q => 25 ≤ Js.length (markedSquares q))
            (fun _ => True)); [..|exact Hrun|exact Hget|exact Hp].
  - intros socketId name h. by vm_compute.
  - by intros q Hq.
  - intros socketId c0 index q _ Hq. simpl.
    rewrite toggled_length. destruct (Js.is_index index); lia.
  - by intros socketId c0 shuffle k q _ Hq.
  - intros socketId c0 shuffle k q _ Hq. by vm_compute.
  - by apply Forall_true.
Qed.

Lemma marks_never_shorter_witness :
  25 ≤ Js.length (toggled initial_marks 25).
Proof.
  apply (marks_never_shorter out_of_range_mark _ _ "ABCD" _
           (mkPlayer "A" "ann" true [] (toggled initial_marks 25))
           eq_refl eq_refl).
  apply list_elem_of_here.
Defined.

Lemma card_full (shuffled : list string) :
  CLICHES ≡ₚ shuffled →
  length (generateBingoCard shuffled) = 25 ∧
  generateBingoCard shuffled !! 12 = Some "FREE SPACE" ∧
  NoDup (generateBingoCard shuffled).
Proof.
  intros Hperm. destruct CLICHES_pool as [Hnd Hlen].
  assert (24 ≤ length CLICHES) as Hsize by (rewrite Hlen; lia).
  pose proof (drawn_length CLICHES shuffled Hsize Hperm) as Hdl.
  assert (length (take 12 (take 24 shuffled)) = 12) as Htl
    by (rewrite length_take_le; lia).
  unfold generateBingoCard, splice_in. split_and!.
  - rewrite length_app, Htl. simpl. rewrite length_drop. lia.
  - rewrite lookup_app_r by lia. by rewrite Htl.
  - assert (NoDup ("FREE SPACE" :: take 24 shuffled)) as H.
    { apply NoDup_cons. split.
      - intros Hin. apply (drawn_from_pool CLICHES shuffled Hperm) in Hin.
        revert Hin. apply (bool_decide_unpack ("FREE SPACE" ∉ CLICHES)).
        vm_compute. exact I.
      - by apply (drawn_NoDup CLICHES shuffled). }
    revert H. rewrite <- (take_drop 12 (take 24 shuffled)) at 1.
    by rewrite Permutation_middle.
Qed.

(** X18. After every sequence of turns in which the random sorts return
    permutations of the phrase pool, the card of every player of every room
    is either not dealt yet (empty) or a full card: 25 pairwise distinct
    cells with FREE SPACE at the centre. *)
Theorem cards_empty_or_full (inputs : list Input) (s : State)
    (outs : list (list Emission)) (c : string) (room : Room) (p : Player) :
  Forall shuffle_permutes inputs →
  run initial inputs = Some (s, outs) →
  JsMap.get (rooms s) c = Some room →
  p ∈ players room →
  bingoCard p = [] ∨
  (length (bingoCard p) = 25 ∧
   bingoCard p !! 12 = Some "FREE SPACE" ∧
   NoDup (bingoCard p)).
Proof.
  intros Hin Hrun Hget Hp.
  eapply (run_all_players card_ok shuffle_permutes);
    [..|exact Hin|exact Hrun|exact Hget|exact Hp].
  - intros socketId name h. by left.
  - by intros q Hq.
  - by intros socketId c0 index q _ Hq.
  - intros socketId c0 shuffle k q Hq _. right. simpl. by apply card_full.
  - intros socketId c0 shuffle k q Hq _. right. simpl. by apply card_full.
Qed.

Lemma cards_empty_or_full_witness :
  ∃ s outs,
    run initial [FromSocket "A" (CreateRoom "ann" [0; 1; 2; 3]);
                 FromSocket "A" (StartGame "ABCD" (fun _ => reverse CLICHES))]
      = Some (s, outs) ∧
    ∀ c room p,
      JsMap.get (rooms s) c = Some room → p ∈ players room →
      bingoCard p = [] ∨
      (length (bingoCard p) = 25 ∧
       bingoCard p !! 12 = Some "FREE SPACE" ∧
       NoDup (bingoCard p)).
Proof.
  assert (Forall shuffle_permutes
            [FromSocket "A" (CreateRoom "ann" [0; 1; 2; 3]);
             FromSocket "A" (StartGame "ABCD" (fun _ => reverse CLICHES))])
    as Hin.
  { apply Forall_cons; split; [exact I|].
    apply Forall_singleton. intros k. symmetry. apply reverse_Permutation. }
  eexists _, _. split; [reflexivity|].
  intros c room p.
  exact (cards_empty_or_full _ _ _ c room p Hin eq_refl).
Defined.

(** ** Joining and leaving *)

Lemma disconnect_room_absent (socketId c : string) (room : Room)
    (t : Timers) :
  Forall (fun q => id q ≠ socketId) (players room) →
  disconnect_room socketId c room t = (room, t, []).
Proof.
  intros Habs. unfold disconnect_room.
  by rewrite (proj2 (list_find_None _ _) Habs).
Qed.

Lemma disconnect_each_absent (socketId : string)
    (entries : list (string * Room)) (t : Timers) :
  Forall (fun e => Forall (fun q => id q ≠ socketId) (players e.2)) entries →
  disconnect_each socketId entries t = (entries, t, []).
Proof.
  induction 1 as [|[c room] entries Hroom _ IH]; [done|]. simpl in *.
  by rewrite disconnect_room_absent, IH.
Qed.

Lemma disconnect_room_guest (socketId c name : string) (room : Room)
    (t : Timers) (p0 : Player) (rest : list Player) :
  Forall (fun q => id q ≠ socketId) (players room) →
  players room = p0 :: rest →
  disconnect_room socketId c
    (set_players (players room ++ [createPlayer socketId name false]) room) t
  = (room, cancelRoomCleanup c t, [(ToRoom c, PlayerLeft (players room))]).
Proof.
  intros Habs Hps. unfold disconnect_room. simpl.
  assert (list_find (fun p => id p = socketId)
            (players room ++ [createPlayer socketId name false])
          = Some (length (players room), createPlayer socketId name false))
    as ->.
  { apply list_find_Some. split_and!.
    - by rewrite list_lookup_middle.
    - done.
    - intros j y Hj Hlt. rewrite lookup_app_l in Hj by done.
      by apply (Forall_lookup_1 _ _ _ _ Habs Hj). }
  rewrite delete_middle, app_nil_r, Hps. simpl. rewrite <- Hps.
  by destruct room.
Qed.

Lemma disconnect_each_guest (socketId c name : string) (room : Room)
    (p0 : Player) (rest : list Player) (entries : list (string * Room))
    (t : Timers) :
  Forall (fun e => Forall (fun q => id q ≠ socketId) (players e.2)) entries →
  JsMap.get entries c = Some room →
  players room = p0 :: rest →
  disconnect_each socketId
    (JsMap.set entries c
       (set_players (players room ++ [createPlayer socketId name false]) room))
    t
  = (entries, cancelRoomCleanup c t,
     [(ToRoom c, PlayerLeft (players room))]).
Proof.
  intros Habs. revert t.
  induction Habs as [|[c0 r0] entries Hr0 Habs IH]; intros t; [done|].
  simpl in *. destruct (decide (c0 = c)) as [->|Hne].
  - intros [= ->] Hps. simpl.
    rewrite (disconnect_room_guest socketId c name room t p0 rest Hr0 Hps).
    by rewrite disconnect_each_absent.
  - intros Hget Hps. simpl. rewrite disconnect_room_absent by done.
    by rewrite (IH t Hget Hps).
Qed.

(** X19. Joining and leaving is a round trip on the registry. When a
    socket that is in no room joins a room that has players and whose game
    has not started, and then disconnects, the registry is exactly what it
    was before the join, and the [disconnect] emits one [player-left] to
    that room, carrying the former player list. *)
Theorem join_then_leave (s : State) (socketId spelled name c : string)
    (room : Room) :
  absent_everywhere socketId s →
  toUpperCase spelled = c →
  JsMap.get (rooms s) c = Some room →
  gameStarted room = false →
  players room ≠ [] →
  ∃ s1 out1 s2,
    handle socketId (JoinRoom spelled name) s = Some (s1, out1) ∧
    handle socketId Disconnect s1
      = Some (s2, [(ToRoom c, PlayerLeft (players room))]) ∧
    rooms s2 = rooms s.
Proof.
  intros Habs Hup Hget Hns Hne.
  destruct (players room) as [|p0 rest] eqn:Hps; [done|].
  simpl. unfold on_join_room. rewrite Hup, Hget, Hns.
  eexists _, _, _. split; [reflexivity|].
  unfold on_disconnect. simpl. rewrite Hps.
  pose proof (disconnect_each_guest socketId c name room p0 rest (rooms s)
                (cancelRoomCleanup c (timers s)) Habs Hget Hps) as H.
  rewrite Hps in H. rewrite H. done.
Qed.

Lemma join_then_leave_witness :
  ∃ s1 out1 s2,
    handle "B" (JoinRoom "abcd" "bob")
      (mkState [("ABCD", mkRoom "ABCD" "A" [createPlayer "A" "ann" true]
                                false regular)]
               (timers initial)) = Some (s1, out1) ∧
    handle "B" Disconnect s1
      = Some (s2, [(ToRoom "ABCD",
                    PlayerLeft [createPlayer "A" "ann" true])]) ∧
    rooms s2 = [("ABCD", mkRoom "ABCD" "A" [createPlayer "A" "ann" true]
                                false regular)].
Proof.
  apply (join_then_leave
           (mkState [("ABCD", mkRoom "ABCD" "A" [createPlayer "A" "ann" true]
                                     false regular)]
                    (timers initial))
           "B" "abcd" "bob" "ABCD"
           (mkRoom "ABCD" "A" [createPlayer "A" "ann" true] false regular)).
  - apply Forall_singleton. apply Forall_singleton. simpl. discriminate.
  - reflexivity.
  - reflexivity.
  - reflexivity.
  - simpl. discriminate.
Defined.

(** ** Scheduling and cancelling *)

(** X20. Scheduling the cleanup of a room replaces any cleanup pending for
    it: with the timer invariants, afterwards the only armed timer for the
    room is the new one, due a full [ROOM_TIMEOUT] from now, and it is the
    one registered in [roomTimers]; cancelling then leaves no armed timer
    for the room; and neither operation arms or clears a timer of another
    room. *)
Theorem schedule_replaces (c : string) (t : Timers) :
  timers_inv t →
  (∀ h due,
     timeouts (scheduleRoomCleanup c t) !! h = Some (c, due) ↔
     h = nextHandle t ∧ due = (clock t + ROOM_TIMEOUT)%Z) ∧
  roomTimers (scheduleRoomCleanup c t) !! c = Some (nextHandle t) ∧
  no_cleanup_pending c (cancelRoomCleanup c (scheduleRoomCleanup c t)) ∧
  (∀ h c' due, c' ≠ c →
     (timeouts (scheduleRoomCleanup c t) !! h = Some (c', due) ↔
      timeouts t !! h = Some (c', due)) ∧
     (timeouts (cancelRoomCleanup c t) !! h = Some (c', due) ↔
      timeouts t !! h = Some (c', due))).
Proof.
  intros Ht. pose proof (scheduleRoomCleanup_inv c t Ht) as Ht'.
  destruct (scheduleRoomCleanup_armed c t) as [Hreg Harm].
  split_and!.
  - intros h due. split.
    + intros H. pose proof (armed_registered _ Ht' _ _ _ H) as Hr.
      rewrite Hreg in Hr. injection Hr as <-.
      rewrite Harm in H. by injection H as <-.
    + by intros [-> ->].
  - done.
  - by apply cancelRoomCleanup_clears.
  - intros h c' due Hne. split; split.
    + intros H. by destruct (scheduleRoomCleanup_origin_code _ _ _ _ _ H).
    + intros H. pose proof (armed_registered _ Ht _ _ _ H) as Hr.
      destruct (scheduleRoomCleanup_frame c' c t h Ht) as [_ ->]; done.
    + apply cancelRoomCleanup_origin.
    + intros H. pose proof (armed_registered _ Ht _ _ _ H) as Hr.
      destruct (cancelRoomCleanup_frame c' c t h Ht) as [_ ->]; done.
Qed.

Lemma schedule_replaces_witness :
  roomTimers
    (scheduleRoomCleanup "ABCD"
       (mkTimers (<["ABCD" := 0]> ∅)
                 (<[0 := ("ABCD", ROOM_TIMEOUT)]> ∅) 1 700)) !! "ABCD"
  = Some 1 ∧
  (timeouts
     (scheduleRoomCleanup "ABCD"
        (mkTimers (<["ABCD" := 0]> ∅)
                  (<[0 := ("ABCD", ROOM_TIMEOUT)]> ∅) 1 700)) !! 0
   = Some ("ABCD", ROOM_TIMEOUT)
   ↔ 0 = 1 ∧ ROOM_TIMEOUT = (700 + ROOM_TIMEOUT)%Z).
Proof.
  assert (timers_inv
            (mkTimers (<["ABCD" := 0]> ∅)
                      (<[0 := ("ABCD", ROOM_TIMEOUT)]> ∅) 1 700)) as Hinv.
  { split; simpl.
    - intros c h [[_ <-]|[_ H]]%lookup_insert_Some; [lia|].
      by rewrite lookup_empty in H.
    - intros h c due [[<- [= <- _]]|[_ H]]%lookup_insert_Some;
        [by rewrite lookup_insert_eq|by rewrite lookup_empty in H].
    - intros c1 c2 h [[<- _]|[_ H1]]%lookup_insert_Some
                     [[<- _]|[_ H2]]%lookup_insert_Some; try done;
        rewrite ?lookup_empty in *; done. }
  destruct (schedule_replaces "ABCD" _ Hinv) as (Honly & Hreg & _).
  split; [exact Hreg | exact (Honly 0 ROOM_TIMEOUT)].
Defined.
